(** * Restaurant Name Generator: text normalisation, export formatting and
      the generation chain of [app.py]

    A shallow embedding of the helpers of [app.py] ([normalize_lines],
    [clean_restaurant_name], [to_display_list], [to_export_v2]), of the
    LCEL chain built by [build_chain] and of the validation performed by
    the button handler, together with the properties stated about them.

    A Python [str] is a sequence of Unicode code points; it is modelled as
    [list N].  The character classes used by [str.strip], [str.splitlines]
    and the [re] module ([\s], [\d]) are those of CPython 3.11
    (Unicode 14.0). *)

From Stdlib Require Import NArith List String Ascii Lia Permutation.
From Stdlib Require DecimalFacts DecimalNat.
From stdpp Require Import base option list strings gmap.

(* ===================================================================== *)
(** ** Python strings                                                     *)
(* ===================================================================== *)

Module PyStr.

(** A [str]: the sequence of its code points. *)
Abbreviation str := (list N) (only parsing).

(** ASCII literals of the source are written [lit "..."]. *)
Fixpoint lit (s : string) : str :=
  match s with
  | EmptyString => []
  | String a r => N_of_ascii a :: lit r
  end.

(** Truthiness of a string: [if s:] holds iff [s] is not empty. *)
Definition truthy {A} (s : list A) : bool :=
  match s with [] => false | _ :: _ => true end.

Definition in_range (lo hi c : N) : bool := ((lo <=? c) && (c <=? hi))%N.

Definition in_ranges (rs : list (N * N)) (c : N) : bool :=
  existsb (fun r => in_range (fst r) (snd r) c) rs.

(** [str.isspace] on one code point, which is also the class [\s] of a
    [str] pattern. *)
Definition isspace (c : N) : bool :=
  in_ranges [ (0x09, 0x0D); (0x1C, 0x20); (0x85, 0x85); (0xA0, 0xA0);
              (0x1680, 0x1680); (0x2000, 0x200A); (0x2028, 0x2029);
              (0x202F, 0x202F); (0x205F, 0x205F); (0x3000, 0x3000) ]%N c.

(** [str.isdecimal] on one code point (general category Nd), which is
    also the class [\d] of a [str] pattern. *)
Definition decimal_ranges : list (N * N) :=
  [ (0x30, 0x39); (0x660, 0x669); (0x6F0, 0x6F9); (0x7C0, 0x7C9);
    (0x966, 0x96F); (0x9E6, 0x9EF); (0xA66, 0xA6F); (0xAE6, 0xAEF);
    (0xB66, 0xB6F); (0xBE6, 0xBEF); (0xC66, 0xC6F); (0xCE6, 0xCEF);
    (0xD66, 0xD6F); (0xDE6, 0xDEF); (0xE50, 0xE59); (0xED0, 0xED9);
    (0xF20, 0xF29); (0x1040, 0x1049); (0x1090, 0x1099); (0x17E0, 0x17E9);
    (0x1810, 0x1819); (0x1946, 0x194F); (0x19D0, 0x19D9); (0x1A80, 0x1A89);
    (0x1A90, 0x1A99); (0x1B50, 0x1B59); (0x1BB0, 0x1BB9); (0x1C40, 0x1C49);
    (0x1C50, 0x1C59); (0xA620, 0xA629); (0xA8D0, 0xA8D9); (0xA900, 0xA909);
    (0xA9D0, 0xA9D9); (0xA9F0, 0xA9F9); (0xAA50, 0xAA59); (0xABF0, 0xABF9);
    (0xFF10, 0xFF19); (0x104A0, 0x104A9); (0x10D30, 0x10D39);
    (0x11066, 0x1106F); (0x110F0, 0x110F9); (0x11136, 0x1113F);
    (0x111D0, 0x111D9); (0x112F0, 0x112F9); (0x11450, 0x11459);
    (0x114D0, 0x114D9); (0x11650, 0x11659); (0x116C0, 0x116C9);
    (0x11730, 0x11739); (0x118E0, 0x118E9); (0x11950, 0x11959);
    (0x11C50, 0x11C59); (0x11D50, 0x11D59); (0x11DA0, 0x11DA9);
    (0x16A60, 0x16A69); (0x16AC0, 0x16AC9); (0x16B50, 0x16B59);
    (0x1D7CE, 0x1D7FF); (0x1E140, 0x1E149); (0x1E2F0, 0x1E2F9);
    (0x1E950, 0x1E959); (0x1FBF0, 0x1FBF9) ]%N.

Definition isdecimal (c : N) : bool := in_ranges decimal_ranges c.

(** The line boundaries of [str.splitlines]. *)
Definition CR : N := 0x0D.
Definition LF : N := 0x0A.

Definition islinebreak (c : N) : bool :=
  in_ranges [ (0x0A, 0x0D); (0x1C, 0x1E); (0x85, 0x85); (0x2028, 0x2029) ]%N c.

(** Membership of a code point in a string of characters. *)
Definition char_in (chars : str) (c : N) : bool := existsb (N.eqb c) chars.

(** The scan shared by the [strip] family: skip code points while [p]
    holds. *)
Fixpoint dropwhile (p : N -> bool) (s : str) : str :=
  match s with
  | [] => []
  | c :: t => if p c then dropwhile p t else s
  end.

Definition lstrip_with (p : N -> bool) (s : str) : str := dropwhile p s.

Definition rstrip_with (p : N -> bool) (s : str) : str :=
  reverse (dropwhile p (reverse s)).

Definition strip_with (p : N -> bool) (s : str) : str :=
  rstrip_with p (lstrip_with p s).

(** [s.strip()]. *)
Definition strip (s : str) : str := strip_with isspace s.

(** [s.strip(chars)]. *)
Definition strip_chars (chars : str) (s : str) : str :=
  strip_with (char_in chars) s.

(** [s.splitlines()]: the lines of [s] without their terminators; the
    pair CR LF is one terminator, and a terminator at the very end opens
    no further line. *)
Fixpoint splitlines (s : str) : list str :=
  match s with
  | [] => []
  | c :: t =>
      if islinebreak c then
        match t with
        | c' :: t' =>
            if ((c =? CR) && (c' =? LF))%N then [] :: splitlines t'
            else [] :: splitlines t
        | [] => [[]]
        end
      else
        match splitlines t with
        | [] => [[c]]
        | l :: ls => (c :: l) :: ls
        end
  end.

(** [sep.join(parts)]. *)
Fixpoint join (sep : str) (parts : list str) : str :=
  match parts with
  | [] => []
  | [p] => p
  | p :: ps => p ++ sep ++ join sep ps
  end.

(** [str(n)] for a non-negative integer: its decimal digits. *)
Fixpoint digits_of_uint (u : Decimal.uint) : str :=
  match u with
  | Decimal.Nil => []
  | Decimal.D0 r => 0x30%N :: digits_of_uint r
  | Decimal.D1 r => 0x31%N :: digits_of_uint r
  | Decimal.D2 r => 0x32%N :: digits_of_uint r
  | Decimal.D3 r => 0x33%N :: digits_of_uint r
  | Decimal.D4 r => 0x34%N :: digits_of_uint r
  | Decimal.D5 r => 0x35%N :: digits_of_uint r
  | Decimal.D6 r => 0x36%N :: digits_of_uint r
  | Decimal.D7 r => 0x37%N :: digits_of_uint r
  | Decimal.D8 r => 0x38%N :: digits_of_uint r
  | Decimal.D9 r => 0x39%N :: digits_of_uint r
  end.

Definition str_of_nat (n : nat) : str := digits_of_uint (Nat.to_uint n).

(** [list(dict.fromkeys(l))]: the keys of the dict in insertion order; a
    key already present keeps its first position. *)
Definition fromkeys_step (keys : list str) (k : str) : list str :=
  if bool_decide (k ∈ keys) then keys else keys ++ [k].

Definition fromkeys (l : list str) : list str := foldl fromkeys_step [] l.

End PyStr.

(* ===================================================================== *)
(** ** The fragment of [re] used by [LINE_CLEAN_RE]                       *)
(* ===================================================================== *)

Module Re.
Import PyStr.

(** Patterns: character classes, greedy repetition of a class,
    concatenation, alternation and the greedy option. *)
Inductive re : Type :=
| Class (p : N -> bool)
| Star (p : N -> bool)
| Plus (p : N -> bool)
| Cat (a b : re)
| Alt (a b : re)
| Opt (a : re).

(** Greedy [p*] followed by the continuation [k]: the longest run is
    tried first, shorter ones on failure of [k]. *)
Fixpoint star_k (p : N -> bool) (s : str) (k : str -> option str)
  : option str :=
  match s with
  | c :: t =>
      if p c then
        match star_k p t k with
        | Some r => Some r
        | None => k s
        end
      else k s
  | [] => k []
  end.

(** Backtracking matcher: [match_k r s k] matches [r] at the start of
    [s] and hands what is left to [k]; the alternatives are tried in
    the order of the engine (left branch first, option taken first). *)
Fixpoint match_k (r : re) (s : str) (k : str -> option str) : option str :=
  match r with
  | Class p =>
      match s with
      | c :: t => if p c then k t else None
      | [] => None
      end
  | Star p => star_k p s k
  | Plus p =>
      match s with
      | c :: t => if p c then star_k p t k else None
      | [] => None
      end
  | Cat a b => match_k a s (fun s' => match_k b s' k)
  | Alt a b =>
      match match_k a s k with
      | Some r' => Some r'
      | None => match_k b s k
      end
  | Opt a =>
      match match_k a s k with
      | Some r' => Some r'
      | None => k s
      end
  end.

(** [sub] with the empty replacement and [count=1], for a pattern that
    starts with the anchor [^]: without MULTILINE such a pattern can
    only match at offset 0; the matched prefix is replaced by the empty
    string, and [s] is returned unchanged when there is no match. *)
Definition sub_anchored_once (r : re) (s : str) : str :=
  match match_k r s Some with
  | Some rest => rest
  | None => s
  end.

End Re.

(* ===================================================================== *)
(** ** Helpers of [app.py]                                                *)
(* ===================================================================== *)

Module App.
Import PyStr Re.

(** The bracket class of bullet glyphs: U+2022, hyphen, asterisk,
    U+2013, U+2014. *)
Definition bullet_glyph (c : N) : bool :=
  char_in [0x2022; 0x2D; 0x2A; 0x2013; 0x2014]%N c.

(** The bracket class after the digits: full stop, closing
    parenthesis, hyphen, U+2022. *)
Definition numeric_suffix (c : N) : bool :=
  char_in [0x2E; 0x29; 0x2D; 0x2022]%N c.

(** [LINE_CLEAN_RE] without its anchor: a greedy run of [\s]; then,
    optionally, either one or more bullet glyphs or one or more [\d]
    followed by zero or more numeric suffix characters; then a greedy
    run of [\s]. *)
Definition LINE_CLEAN_RE : re :=
  Cat (Star isspace)
    (Cat (Opt (Alt (Plus bullet_glyph)
                   (Cat (Plus isdecimal) (Star numeric_suffix))))
         (Star isspace)).

(** [LINE_CLEAN_RE.sub("", s, count=1)]. *)
Definition LINE_CLEAN_RE_sub (s : str) : str :=
  sub_anchored_once LINE_CLEAN_RE s.

(** The characters of [QUOTE_CLEAN_CHARS]: straight double and single
    quote, curly double quotes, curly single quotes, backtick. *)
Definition QUOTE_CLEAN_CHARS : str :=
  [0x22; 0x27; 0x201C; 0x201D; 0x2018; 0x2019; 0x60]%N.

Definition MAX_MENU_ITEMS : nat := 6.

(** One iteration of the loop of [normalize_lines] over [raw_line]. *)
Definition normalize_lines_body (cleaned : list str) (raw_line : str)
  : list str :=
  let stripped := strip raw_line in
  if negb (truthy stripped) then cleaned
  else
    let normalized := strip (LINE_CLEAN_RE_sub stripped) in
    if truthy normalized then cleaned ++ [normalized] else cleaned.

Definition normalize_lines (text : option str) : list str :=
  match text with
  | None => []
  | Some t =>
      if negb (truthy t) then []
      else
        let cleaned := foldl normalize_lines_body [] (splitlines t) in
        let deduped := fromkeys cleaned in
        take MAX_MENU_ITEMS deduped
  end.

Definition clean_restaurant_name (name : option str) : str :=
  match name with
  | None => []
  | Some n =>
      if negb (truthy n) then []
      else
        let cleaned := strip n in
        let cleaned := strip_chars QUOTE_CLEAN_CHARS cleaned in
        strip cleaned
  end.

(** [[f"{i+1}. {x}" for i, x in enumerate(items)]], from index [i]. *)
Fixpoint numbered_from (i : nat) (items : list str) : list str :=
  match items with
  | [] => []
  | x :: xs => (str_of_nat (i + 1) ++ lit ". " ++ x) :: numbered_from (S i) xs
  end.

Definition bulleted (items : list str) : list str :=
  map (fun x => lit "- " ++ x) items.

Definition NL : str := [LF].

Definition str_eqb (a b : str) : bool := bool_decide (a = b).

Definition to_display_list (items : list str) (style : str) : str :=
  if str_eqb style (lit "Bullets") then join NL (bulleted items)
  else if str_eqb style (lit "Numbered") then join NL (numbered_from 0 items)
  else join NL items.

(** [to_export_v2]; the keyword arguments [slogan] and [description]
    default to the empty string and [drinks] to [None]. *)
Definition to_export_v2 (name : str) (items : list str) (fmt : str)
    (slogan description : str) (drinks : option (list str)) : str :=
  let drinks := match drinks with
                | Some (d :: ds) => d :: ds
                | _ => []
                end in
  if str_eqb fmt (lit "Markdown") then
    let parts := [lit "## " ++ name] in
    let parts := if truthy slogan then parts ++ [lit "*" ++ slogan ++ lit "*"]
                 else parts in
    let parts := if truthy description then parts ++ [description]
                 else parts in
    let parts := parts ++ [LF :: lit "### Menu Items"] in
    let parts := parts ++ [join NL (bulleted items)] in
    let parts := parts ++ [LF :: lit "### Drinks"] in
    let parts := if truthy drinks then parts ++ [join NL (bulleted drinks)]
                 else parts ++ [lit "_(none)_"] in
    strip (join (NL ++ NL) parts)
  else
    let parts := [name] in
    let parts := if truthy slogan then parts ++ [slogan] else parts in
    let parts := if truthy description then parts ++ [description]
                 else parts in
    let parts := parts ++ [LF :: lit "Menu Items"] in
    let parts := parts ++ items in
    let parts := parts ++ [LF :: lit "Drinks"] in
    let parts := parts ++ (if truthy drinks then drinks else [lit "(none)"]) in
    strip (join NL parts).

End App.

(* ===================================================================== *)
(** ** The generation chain and the handler of the button                 *)
(* ===================================================================== *)

Module Chain.
Import PyStr Re App.

(** Exceptions: a missing prompt variable, a failure raised by the model
    call (time-out, API or authentication error) with its cause, and the
    [ValueError]s raised by the handler. *)
Inductive exn : Type :=
| KeyError (key : string)
| UpstreamError (cause : str)
| ValueError (msg : str).

(** The model capability: the text returned for a prompt, or the failure
    raised.  The answer may depend on the prompts already sent (the
    history), which covers sampling at a positive temperature. *)
Definition LLM : Type := list str -> str -> exn + str.

(** A capability is deterministic when its answer depends on the prompt
    alone. *)
Definition deterministic (llm : LLM) : Prop :=
  forall h h' p, llm h p = llm h' p.

(** Computations that may raise and that record, in order, the prompts
    sent to the model. *)
Definition M (A : Type) : Type := list str -> (exn + A) * list str.

Definition ret {A} (a : A) : M A := fun log => (inr a, log).

Definition raise {A} (e : exn) : M A := fun log => (inl e, log).

Definition bind {A B} (m : M A) (f : A -> M B) : M B :=
  fun log =>
    match m log with
    | (inr a, log') => f a log'
    | (inl e, log') => (inl e, log')
    end.

Definition lift {A} (r : exn + A) : M A :=
  match r with
  | inl e => raise e
  | inr a => ret a
  end.

Definition call_llm (llm : LLM) (prompt : str) : M str :=
  fun log => (llm log prompt, log ++ [prompt]).

Notation "'do' x <- m ; k" := (bind m (fun x => k))
  (at level 10, x name, m at level 100, k at level 200).

(** *** Prompt templates *)

Inductive piece : Type :=
| Text (s : str)
| Field (name : string).

Record PromptTemplate : Type := {
  input_variables : list string;
  template : list piece
}.

Fixpoint render (t : list piece) (d : gmap string str) : exn + str :=
  match t with
  | [] => inr []
  | Text s :: r =>
      match render r d with
      | inr rest => inr (s ++ rest)
      | inl e => inl e
      end
  | Field k :: r =>
      match d !! k with
      | Some v =>
          match render r d with
          | inr rest => inr (v ++ rest)
          | inl e => inl e
          end
      | None => inl (KeyError k)
      end
  end.

(** The first input variable that the dict does not hold, if any. *)
Fixpoint first_missing (vars : list string) (d : gmap string str)
  : option string :=
  match vars with
  | [] => None
  | k :: r =>
      match d !! k with
      | None => Some k
      | Some _ => first_missing r d
      end
  end.

(** Formatting a template on a dict: every input variable must be
    present; other keys of the dict are ignored. *)
Definition format_prompt (t : PromptTemplate) (d : gmap string str)
  : exn + str :=
  match first_missing (input_variables t) d with
  | Some k => inl (KeyError k)
  | None => render (template t) d
  end.

Definition name_prompt : PromptTemplate :=
  {| input_variables := ["cuisine"];
     template :=
       [ Text (lit "You are a brand consultant. Give a short, catchy, brandable restaurant name for ");
         Field "cuisine";
         Text (lit " cuisine. Return ONLY the name, no quotes or extra text.") ] |}.

Definition menu_prompt : PromptTemplate :=
  {| input_variables := ["cuisine"; "restaurant_name"];
     template :=
       [ Text (lit "List 6 popular menu items for a ");
         Field "cuisine";
         Text (lit " restaurant named ");
         Field "restaurant_name";
         Text (lit ". Return one item per line, no numbering.") ] |}.

Definition drinks_prompt : PromptTemplate :=
  {| input_variables := ["cuisine"; "restaurant_name"];
     template :=
       [ Text (lit "List 6 popular drink items for a ");
         Field "cuisine";
         Text (lit " restaurant named ");
         Field "restaurant_name";
         Text (lit ". Include at least 2 non-alcoholic options. Return one item per line, no numbering.") ] |}.

Definition slogan_prompt : PromptTemplate :=
  {| input_variables := ["restaurant_name"; "cuisine"];
     template :=
       [ Text (lit "You are a brand copywriter. Create a short, catchy slogan (max 6 words) for a ");
         Field "cuisine";
         Text (lit " restaurant named ");
         Field "restaurant_name";
         Text (lit ". Return ONLY the slogan.") ] |}.

(** The template holds an en dash (U+2013) and an e with acute accent
    (U+00E9). *)
Definition description_prompt : PromptTemplate :=
  {| input_variables := ["restaurant_name"; "cuisine"];
     template :=
       [ Text (lit "Write a warm, vivid, 2" ++ [0x2013%N]
               ++ lit "3 sentence description for a ");
         Field "cuisine";
         Text (lit " restaurant named ");
         Field "restaurant_name";
         Text (lit ". Avoid clich" ++ [0xE9%N]
               ++ lit "s. No markdown or extra headings.") ] |}.

(** *** Runnables *)

Definition Runnable (A B : Type) : Type := A -> M B.

(** [f | g]. *)
Definition pipe {A B C} (f : Runnable A B) (g : Runnable B C)
  : Runnable A C :=
  fun a => do b <- f a; g b.

Definition prompt_runnable (t : PromptTemplate)
  : Runnable (gmap string str) str :=
  fun d => lift (format_prompt t d).

Definition llm_runnable (llm : LLM) : Runnable str str := call_llm llm.

(** [StrOutputParser]: the text of the answer. *)
Definition parser : Runnable str str := ret.

(** [.assign(key=r)]: run [r] on the dict and add its output under
    [key]. *)
Definition assign (key : string) (r : Runnable (gmap string str) str)
  : Runnable (gmap string str) (gmap string str) :=
  fun d => do v <- r d; ret (<[key := v]> d).

(** [inputs.get(key, "")]. *)
Definition get_or_empty (inputs : gmap string str) (key : string) : str :=
  default [] (inputs !! key).

Section build_chain.
Variable llm : LLM.

Definition name_chain := pipe (pipe (prompt_runnable name_prompt) (llm_runnable llm)) parser.
Definition menu_chain := pipe (pipe (prompt_runnable menu_prompt) (llm_runnable llm)) parser.
Definition drinks_chain := pipe (pipe (prompt_runnable drinks_prompt) (llm_runnable llm)) parser.
Definition slogan_chain := pipe (pipe (prompt_runnable slogan_prompt) (llm_runnable llm)) parser.
Definition description_chain :=
  pipe (pipe (prompt_runnable description_prompt) (llm_runnable llm)) parser.

Definition build_menu : Runnable (gmap string str) str :=
  fun inputs =>
    let prompt_inputs : gmap string str :=
      <["cuisine" := get_or_empty inputs "cuisine"]>
        (<["restaurant_name" := get_or_empty inputs "restaurant_name"]> ∅) in
    menu_chain prompt_inputs.

Definition build_drinks : Runnable (gmap string str) str :=
  fun inputs =>
    let prompt_inputs : gmap string str :=
      <["cuisine" := get_or_empty inputs "cuisine"]>
        (<["restaurant_name" := get_or_empty inputs "restaurant_name"]> ∅) in
    drinks_chain prompt_inputs.

Definition build_chain : Runnable (gmap string str) (gmap string str) :=
  pipe (pipe (pipe (pipe
    (assign "restaurant_name" name_chain)
    (assign "menu_items" build_menu))
    (assign "drink_items" build_drinks))
    (assign "slogan" slogan_chain))
    (assign "description" description_chain).

(** The four assignments that follow the name, in the order of the
    source. *)
Definition step2 : list (string * Runnable (gmap string str) str) :=
  [ ("menu_items", build_menu); ("drink_items", build_drinks);
    ("slogan", slogan_chain); ("description", description_chain) ].

(** The chain with the assignments after the name taken in the order
    [steps]. *)
Definition build_chain_in_order
    (steps : list (string * Runnable (gmap string str) str))
  : Runnable (gmap string str) (gmap string str) :=
  foldl (fun chain s => pipe chain (assign (fst s) (snd s)))
        (assign "restaurant_name" name_chain) steps.
End build_chain.

(** *** The handler *)

Record GenerationResult : Type := {
  restaurant_name : str;
  menu_items : list str;
  drink_items : list str;
  slogan : str;
  description : str
}.

Definition empty_name : exn :=
  ValueError (lit "No restaurant name was returned by the model.").

Definition empty_menu : exn :=
  ValueError (lit "No menu items were returned by the model.").

(** [x or ""] for the result of [dict.get]. *)
Definition or_empty (x : option str) : str :=
  match x with
  | Some (c :: t) => c :: t
  | _ => []
  end.

(** The statements of the handler between [chain.invoke] and the
    rendering: cleaning, then the two checks. *)
Definition validate (res : gmap string str) : exn + GenerationResult :=
  let rest_name := clean_restaurant_name (res !! "restaurant_name") in
  let items := normalize_lines (res !! "menu_items") in
  let drinks := normalize_lines (res !! "drink_items") in
  let slogan := strip (or_empty (res !! "slogan")) in
  let description := strip (or_empty (res !! "description")) in
  if negb (truthy rest_name) then inl empty_name
  else if negb (truthy items) then inl empty_menu
  else inr {| restaurant_name := rest_name; menu_items := items;
              drink_items := drinks; slogan := slogan;
              description := description |}.

(** The [try] block of the handler for the chain [chain]. *)
Definition run_handler (chain : Runnable (gmap string str) (gmap string str))
    (cuisine : str) : M GenerationResult :=
  do res <- chain {["cuisine" := cuisine]}; lift (validate res).

Definition generate (llm : LLM) (cuisine : str) : M GenerationResult :=
  run_handler (build_chain llm) cuisine.

End Chain.

(* ===================================================================== *)
(** ** The API key, the download and the main panel                       *)
(* ===================================================================== *)

Module Panel.
Import PyStr Re App Chain.

(** [x or None] for a string [x]. *)
Definition or_none (x : str) : option str :=
  if truthy x then Some x else None.

(** The module-level [OPENAI_API_KEY], from the value of the environment
    variable ([None] when it is not set). *)
Definition OPENAI_API_KEY (env : option str) : option str :=
  or_none (strip (or_empty env)).

(** [effective_key = key_input.strip() or OPENAI_API_KEY]. *)
Definition effective_key (key_input : str) (env_key : option str)
  : option str :=
  if truthy (strip key_input) then Some (strip key_input) else env_key.

(** [get_llm]: the client for a temperature and a key; [client] stands
    for the constructor of the chat model. *)
Definition get_llm {T} (client : T -> str -> LLM) (temp : T) (api_key : str)
  : exn + LLM :=
  if negb (truthy api_key) then inl (ValueError (lit "Missing OpenAI API key."))
  else inr (client temp api_key).

(** [s.replace(old, new)] for one-character [old] and [new]. *)
Definition replace_char (old new : N) (s : str) : str :=
  map (fun c => if (c =? old)%N then new else c) s.

(** The [file_name] and the [mime] of the download button. *)
Definition download_file_name (rest_name export_fmt : str) : str :=
  replace_char 0x20 0x5F rest_name ++ lit "."
  ++ (if str_eqb export_fmt (lit "Markdown") then lit "md" else lit "txt").

Definition download_mime (export_fmt : str) : str :=
  if str_eqb export_fmt (lit "Markdown") then lit "text/markdown"
  else lit "text/plain".

(** What the panel shows after a successful generation: the result, the
    menu list, the drinks list (or the caption shown when there is
    none), the text of the output area and the download. *)
Record Rendered : Type := {
  shown : GenerationResult;
  menu_display : str;
  drinks_display : option str;
  content : str;
  file_name : str;
  mime : str
}.

Definition render (r : GenerationResult) (bullet_style export_fmt : str)
  : Rendered :=
  {| shown := r;
     menu_display := to_display_list (menu_items r) bullet_style;
     drinks_display :=
       if truthy (drink_items r)
       then Some (to_display_list (drink_items r) bullet_style)
       else None;
     content :=
       to_export_v2 (restaurant_name r) (menu_items r) export_fmt
         (slogan r) (description r) (Some (drink_items r));
     file_name := download_file_name (restaurant_name r) export_fmt;
     mime := download_mime export_fmt |}.

(** The states of the left column. *)
Inductive Screen : Type :=
| InfoShown
| MissingKeyShown
| Generated (r : Rendered)
| ExceptionShown (e : exn).

(** The left column: nothing runs before the button is pressed; without
    a key an error is shown; otherwise the chain runs inside [try], and
    any exception is shown instead of the result. *)
Definition main_panel {T} (client : T -> str -> LLM) (run_btn : bool)
    (key_input : str) (env : option str) (temperature : T)
    (cuisine bullet_style export_fmt : str) : M Screen :=
  if run_btn then
    match effective_key key_input (OPENAI_API_KEY env) with
    | None => ret MissingKeyShown
    | Some key =>
        do llm <- lift (get_llm client temperature key);
        fun log =>
          match generate llm cuisine log with
          | (inr r, log') =>
              (inr (Generated (render r bullet_style export_fmt)), log')
          | (inl e, log') => (inr (ExceptionShown e), log')
          end
    end
  else ret InfoShown.

End Panel.

(* ===================================================================== *)
(** ** Sample model capabilities                                          *)
(* ===================================================================== *)

Module Samples.
Import PyStr Chain.

(** [s.startswith(prefix)]. *)
Fixpoint starts_with (prefix s : str) : bool :=
  match prefix, s with
  | [], _ => true
  | c :: p', c' :: s' => (c =? c')%N && starts_with p' s'
  | _ :: _, [] => false
  end.

(** A mocked model that recognises the five prompts by how they start
    and answers with the texts [name], [menu], [drinks], [slogan] and
    [description]. *)
Definition mock_llm (name menu drinks slogan description : str) : LLM :=
  fun _ prompt =>
    if starts_with (lit "You are a brand consultant") prompt then inr name
    else if starts_with (lit "List 6 popular menu") prompt then inr menu
    else if starts_with (lit "List 6 popular drink") prompt then inr drinks
    else if starts_with (lit "You are a brand copywriter") prompt
    then inr slogan
    else inr description.

(** The mocked model of the end-to-end scenario. *)
Definition casa_verde_llm : LLM :=
  mock_llm (lit "Casa Verde")
    (lit "Tacos" ++ [LF] ++ lit "Burritos" ++ [LF] ++ lit "Quesadillas"
     ++ [LF] ++ lit "Nachos" ++ [LF] ++ lit "Elote" ++ [LF] ++ lit "Churros")
    (lit "Horchata" ++ [LF] ++ lit "Agua Fresca" ++ [LF] ++ lit "Margarita"
     ++ [LF] ++ lit "Beer" ++ [LF] ++ lit "Limeade" ++ [LF] ++ lit "Mojito")
    (lit "Fresh. Bold. Mexican.")
    (lit "A lively spot...").

(** A model that answers the name and the menu and returns empty text
    for the drinks, the slogan and the description. *)
Definition sparse_llm : LLM :=
  mock_llm (lit "Casa Verde") (lit "Tacos" ++ [LF] ++ lit "Elote") [] [] [].

(** The dict returned by the chain for [sparse_llm] and the cuisine
    Mexican. *)
Definition sparse_res : gmap string str :=
  <["description" := []]>
    (<["slogan" := []]>
       (<["drink_items" := []]>
          (<["menu_items" := lit "Tacos" ++ [LF] ++ lit "Elote"]>
             (<["restaurant_name" := lit "Casa Verde"]>
                {["cuisine" := lit "Mexican"]})))).

(** A model whose every call fails. *)
Definition failing_llm : LLM :=
  fun _ _ => inl (UpstreamError (lit "timeout")).

(** A model that answers every prompt but the one for the drinks, on
    which it fails. *)
Definition drinks_down_llm : LLM :=
  fun _ prompt =>
    if starts_with (lit "List 6 popular drink") prompt
    then inl (UpstreamError (lit "timeout"))
    else inr (lit "Saffron Table").

(** A model whose answer tells how many prompts it has seen before: it
    is not deterministic. *)
Definition counting_llm : LLM :=
  fun history _ => inr (lit "Dish " ++ str_of_nat (length history)).

End Samples.

(* ===================================================================== *)
(** ** Vocabulary of the statements                                       *)
(* ===================================================================== *)

Module Props.
Import PyStr Re App Chain.

(** Every code point of [s] is in the class [p]. *)
Definition all_in (p : N -> bool) (s : str) : Prop :=
  Forall (fun c => p c = true) s.

(** No code point of [s] is in the class [p]. *)
Definition none_in (p : N -> bool) (s : str) : Prop :=
  Forall (fun c => p c = false) s.

(** [s] does not start (resp. end) with a code point of the class [p]. *)
Definition not_starting (p : N -> bool) (s : str) : Prop :=
  match s with
  | c :: _ => p c = false
  | [] => True
  end.

Definition not_ending (p : N -> bool) (s : str) : Prop :=
  not_starting p (reverse s).

(** The longest prefix of [s] in the class [p]. *)
Fixpoint takewhile (p : N -> bool) (s : str) : str :=
  match s with
  | [] => []
  | c :: t => if p c then c :: takewhile p t else []
  end.

(** [marker_before m s]: [m] is what the optional group of
    [LINE_CLEAN_RE] consumes in front of [s]: nothing when [s] starts
    with neither a bullet glyph nor a decimal digit; a maximal run of
    bullet glyphs; or a maximal run of decimal digits followed by a
    maximal, possibly empty, run of the characters full stop, closing
    parenthesis, hyphen and bullet. *)
Inductive marker_before : str -> str -> Prop :=
| marker_none s :
    not_starting bullet_glyph s -> not_starting isdecimal s ->
    marker_before [] s
| marker_bullets b s :
    b <> [] -> all_in bullet_glyph b -> not_starting bullet_glyph s ->
    marker_before b s
| marker_numeric d p s :
    d <> [] -> all_in isdecimal d -> all_in numeric_suffix p ->
    not_starting isdecimal (p ++ s) -> not_starting numeric_suffix s ->
    marker_before (d ++ p) s.

(** The scan that drops one marker from the start of [s]: a run of
    bullet glyphs, or a run of decimal digits and the run of suffix
    characters after it. *)
Definition strip_marker (s : str) : str :=
  match s with
  | c :: t =>
      if bullet_glyph c then dropwhile bullet_glyph t
      else if isdecimal c then dropwhile numeric_suffix (dropwhile isdecimal t)
      else s
  | [] => []
  end.

(** The line kept by [normalize_lines] for [raw_line], if any. *)
Definition clean_line (raw_line : str) : option str :=
  let normalized := strip (LINE_CLEAN_RE_sub (strip raw_line)) in
  if truthy normalized then Some normalized else None.

(** What [to_export_v2] ends with when there are no drinks, for the
    format [fmt]. *)
Definition no_drinks_tail (fmt : str) : str :=
  if str_eqb fmt (lit "Markdown")
  then [LF] ++ lit "### Drinks" ++ [LF; LF] ++ lit "_(none)_"
  else [LF] ++ lit "Drinks" ++ [LF] ++ lit "(none)".

(** *** The chain *)

(** The value returned by a run, if it returned. *)
Definition outcome {A} (x : (exn + A) * list str) : option A :=
  match fst x with
  | inr a => Some a
  | inl _ => None
  end.

(** The assignments [steps] run one after the other. *)
Fixpoint assign_all (steps : list (string * Runnable (gmap string str) str))
  : Runnable (gmap string str) (gmap string str) :=
  fun d =>
    match steps with
    | [] => ret d
    | s :: r => do d' <- assign (fst s) (snd s) d; assign_all r d'
    end.

(** Every prompt of [sent], sent in this order after the history
    [log], was answered with text by the model. *)
Fixpoint all_answered (llm : LLM) (log : list str) (sent : list str) : Prop :=
  match sent with
  | [] => True
  | q :: r => (exists a, llm log q = inr a) /\ all_answered llm (log ++ [q]) r
  end.

(** The keys written after the name. *)
Definition out_keys : list string :=
  ["menu_items"; "drink_items"; "slogan"; "description"].

(** The template names no variable but the cuisine and the name. *)
Definition about_cuisine_and_name (t : PromptTemplate) : Prop :=
  (forall k, k ∈ input_variables t -> k = "cuisine" \/ k = "restaurant_name")
  /\ (forall k, Field k ∈ template t -> k = "cuisine" \/ k = "restaurant_name").

(** [r] reads nothing of its input but the cuisine and the name. *)
Definition reads_cuisine_and_name (r : Runnable (gmap string str) str) : Prop :=
  forall d d' : gmap string str,
    d !! "cuisine" = d' !! "cuisine" ->
    d !! "restaurant_name" = d' !! "restaurant_name" ->
    forall log, r d log = r d' log.

(** The value computed by [r] does not depend on the prompts sent
    before. *)
Definition history_free (r : Runnable (gmap string str) str) : Prop :=
  forall d log log', fst (r d log) = fst (r d log').

Definition independent_step (s : string * Runnable (gmap string str) str)
  : Prop :=
  fst s ∈ out_keys /\ reads_cuisine_and_name (snd s) /\ history_free (snd s).

(** An entry as [normalize_lines] returns them: not empty, without
    white space at either end and without line boundary. *)
Definition normalized_entry (y : str) : Prop :=
  y <> [] /\ not_starting isspace y /\ not_ending isspace y
  /\ none_in islinebreak y.

(** [y] occurs in [s] as a contiguous piece. *)
Definition substring (y s : str) : Prop :=
  exists pre post, s = pre ++ y ++ post.

(** The ASCII digits, of which [str(n)] is made. *)
Definition ascii_digits : str :=
  [0x30; 0x31; 0x32; 0x33; 0x34; 0x35; 0x36; 0x37; 0x38; 0x39]%N.

(** The prefix put in front of an item: a hyphen and a space, or a
    number, a full stop and a space. *)
Definition style_prefix (mk : str) : Prop :=
  mk = lit "- " \/ exists n, mk = str_of_nat n ++ lit ". ".

(** Each line is an item behind a style prefix. *)
Definition prefixed_lines (lines items : list str) : Prop :=
  Forall2 (fun line y => exists mk, style_prefix mk /\ line = mk ++ y)
          lines items.

End Props.

(* ===================================================================== *)
(** ** Facts about Python strings                                         *)
(* ===================================================================== *)

Module PyStrFacts.
Import PyStr Props.

Lemma truthy_false {A} (s : list A) : truthy s = false <-> s = [].
Proof. destruct s; simpl; split; congruence. Qed.

Lemma truthy_true {A} (s : list A) : truthy s = true <-> s <> [].
Proof. destruct s; simpl; split; congruence. Qed.

Lemma dropwhile_span p s : s = takewhile p s ++ dropwhile p s.
Proof.
  induction s as [|c t IH]; simpl; [reflexivity|].
  destruct (p c); simpl; [f_equal; exact IH | reflexivity].
Qed.

Lemma takewhile_all p s : all_in p (takewhile p s).
Proof.
  induction s as [|c t IH]; simpl; [constructor|].
  destruct (p c) eqn:E; constructor; assumption.
Qed.

Lemma dropwhile_not_starting p s : not_starting p (dropwhile p s).
Proof.
  induction s as [|c t IH]; simpl; [exact I|].
  destruct (p c) eqn:E; [exact IH | exact E].
Qed.

Lemma dropwhile_fixed p s : not_starting p s -> dropwhile p s = s.
Proof. destruct s as [|c t]; simpl; [reflexivity|]. intros ->. reflexivity. Qed.

Lemma dropwhile_all p a b : all_in p a -> dropwhile p (a ++ b) = dropwhile p b.
Proof.
  induction 1 as [|c a Hc _ IH]; simpl; [reflexivity|]. rewrite Hc. exact IH.
Qed.

Lemma dropwhile_app_stop p a c b :
  p c = false -> dropwhile p (a ++ c :: b) = dropwhile p a ++ c :: b.
Proof.
  intros Hc. induction a as [|x a IH]; simpl.
  - rewrite Hc. reflexivity.
  - destruct (p x); [exact IH | reflexivity].
Qed.

Lemma dropwhile_none_in p q s : none_in q s -> none_in q (dropwhile p s).
Proof.
  induction 1 as [|c t Hc Ht IH]; simpl; [constructor|].
  destruct (p c); [exact IH | constructor; assumption].
Qed.

Lemma not_starting_app_l p a b : a <> [] -> not_starting p (a ++ b) -> not_starting p a.
Proof. destruct a; simpl; [congruence | auto]. Qed.

Lemma not_starting_prefix p a b : not_starting p (a ++ b) -> not_starting p a.
Proof. destruct a; simpl; auto. Qed.

Lemma rstrip_with_span p s :
  exists post, s = rstrip_with p s ++ post /\ all_in p post
               /\ not_ending p (rstrip_with p s).
Proof.
  unfold rstrip_with, not_ending.
  exists (reverse (takewhile p (reverse s))). split; [|split].
  - rewrite <- reverse_app, <- dropwhile_span, reverse_involutive. reflexivity.
  - apply Forall_reverse, takewhile_all.
  - rewrite reverse_involutive. apply dropwhile_not_starting.
Qed.

(** [strip_with p] removes a prefix and a suffix in the class [p] and
    leaves a string that neither starts nor ends in the class. *)
Lemma strip_with_spec p s :
  exists pre post,
    s = pre ++ strip_with p s ++ post /\ all_in p pre /\ all_in p post
    /\ not_starting p (strip_with p s) /\ not_ending p (strip_with p s).
Proof.
  unfold strip_with, lstrip_with.
  destruct (rstrip_with_span p (dropwhile p s)) as (post & Hs & Hpost & Hend).
  exists (takewhile p s), post. repeat split; try assumption.
  - rewrite <- Hs. apply dropwhile_span.
  - apply takewhile_all.
  - apply not_starting_prefix with post. rewrite <- Hs.
    apply dropwhile_not_starting.
Qed.

Lemma strip_with_fixed p s :
  not_starting p s -> not_ending p s -> strip_with p s = s.
Proof.
  intros Hs He. unfold strip_with, lstrip_with, rstrip_with.
  rewrite (dropwhile_fixed p s Hs), (dropwhile_fixed p (reverse s) He).
  apply reverse_involutive.
Qed.

Lemma strip_with_idem p s : strip_with p (strip_with p s) = strip_with p s.
Proof.
  destruct (strip_with_spec p s) as (pre & post & _ & _ & _ & Hs & He).
  apply strip_with_fixed; assumption.
Qed.

Lemma strip_with_none_in p q s : none_in q s -> none_in q (strip_with p s).
Proof.
  intros H. unfold strip_with, lstrip_with, rstrip_with.
  apply Forall_reverse, dropwhile_none_in, Forall_reverse, dropwhile_none_in, H.
Qed.

(** A string that starts and ends outside the class survives
    [strip_with] whatever is put in front of it. *)
Lemma strip_with_keep p a c b e :
  p c = false -> p e = false ->
  strip_with p (a ++ c :: b ++ [e]) = dropwhile p a ++ c :: b ++ [e].
Proof.
  intros Hc He. unfold strip_with, lstrip_with, rstrip_with.
  rewrite dropwhile_app_stop by assumption.
  replace (dropwhile p a ++ c :: b ++ [e])
    with ((dropwhile p a ++ c :: b) ++ [e]) by (rewrite <- app_assoc; reflexivity).
  rewrite reverse_snoc. simpl. rewrite He.
  rewrite <- reverse_snoc. apply reverse_involutive.
Qed.

(** *** [splitlines] and [join] *)

Lemma splitlines_no_break_len n :
  forall s, length s <= n -> Forall (none_in islinebreak) (splitlines s).
Proof.
  induction n as [|n IH]; intros s Hn.
  - destruct s; [constructor | simpl in Hn; lia].
  - destruct s as [|c t]; [constructor|]. simpl in Hn. simpl.
    destruct (islinebreak c) eqn:Ec.
    + destruct t as [|c' t']; [repeat constructor|].
      simpl in Hn.
      destruct ((c =? CR)%N && (c' =? LF)%N);
        (constructor; [constructor | apply IH; simpl; lia]).
    + assert (Ht : Forall (none_in islinebreak) (splitlines t))
        by (apply IH; lia).
      destruct (splitlines t) as [|l ls]; [repeat constructor; exact Ec|].
      inversion Ht; subst. constructor; [constructor; assumption | assumption].
Qed.

(** No line returned by [splitlines] holds a line boundary. *)
Lemma splitlines_no_break s : Forall (none_in islinebreak) (splitlines s).
Proof. apply (splitlines_no_break_len (length s)). lia. Qed.

Lemma splitlines_line_LF y rest :
  none_in islinebreak y -> splitlines (y ++ LF :: rest) = y :: splitlines rest.
Proof.
  induction 1 as [|c y Hc Hy IH].
  - simpl. destruct rest; reflexivity.
  - simpl. rewrite Hc, IH. reflexivity.
Qed.

Lemma splitlines_single y :
  y <> [] -> none_in islinebreak y -> splitlines y = [y].
Proof.
  intros Hne Hy. induction Hy as [|c y Hc Hy IH]; [congruence|].
  simpl. rewrite Hc. destruct y as [|c' y']; [reflexivity|].
  rewrite IH by congruence. reflexivity.
Qed.

Lemma join_cons2 sep x y l : join sep (x :: y :: l) = x ++ sep ++ join sep (y :: l).
Proof. reflexivity. Qed.

(** Joining lines with a newline and splitting again gives the lines
    back, when each is non-empty and free of line boundaries. *)
Lemma splitlines_join l :
  Forall (fun y => y <> [] /\ none_in islinebreak y) l ->
  splitlines (join [LF] l) = l.
Proof.
  induction 1 as [|y l [Hne Hy] Hl IH]; [reflexivity|].
  destruct l as [|z l].
  - simpl. apply splitlines_single; assumption.
  - rewrite join_cons2.
    change ([LF] ++ ?x) with (LF :: x).
    rewrite splitlines_line_LF by assumption. rewrite IH. reflexivity.
Qed.

Lemma join_nil_inv sep l :
  Forall (fun y : str => y <> []) l -> join sep l = [] -> l = [].
Proof.
  intros Hl Hj. destruct Hl as [|y l Hy Hl]; [reflexivity|].
  destruct l; simpl in Hj.
  - congruence.
  - apply app_eq_nil in Hj as [? _]. congruence.
Qed.

(** [join] of a list that ends with the part [x]: every earlier part is
    followed by the separator. *)
Lemma join_snoc sep l x :
  join sep (l ++ [x]) = concat (map (fun p => p ++ sep) l) ++ x.
Proof.
  induction l as [|y l IH]; [reflexivity|].
  change ((y :: l) ++ [x]) with (y :: (l ++ [x])).
  destruct l as [|z l].
  - simpl. rewrite app_nil_r, <- app_assoc. reflexivity.
  - change ((z :: l) ++ [x]) with (z :: (l ++ [x])) in *.
    rewrite join_cons2, IH. simpl. rewrite <- !app_assoc. reflexivity.
Qed.

(** *** [dict.fromkeys] *)

Lemma fromkeys_fold_spec l : forall acc,
  NoDup acc ->
  NoDup (foldl fromkeys_step acc l)
  /\ forall x, x ∈ foldl fromkeys_step acc l <-> x ∈ acc \/ x ∈ l.
Proof.
  induction l as [|k l IH]; intros acc Hacc; simpl.
  - split; [assumption|]. intros x. rewrite elem_of_nil. tauto.
  - unfold fromkeys_step at 2 4. case_bool_decide as Hk.
    + destruct (IH acc Hacc) as [Hnd Hin]. split; [assumption|].
      intros x. rewrite Hin, elem_of_cons. split; [tauto|].
      intros [?|[->|?]]; auto.
    + assert (Hacc' : NoDup (acc ++ [k])).
      { apply NoDup_app. repeat split; [assumption | | apply NoDup_singleton].
        intros x Hx Hx'. apply list_elem_of_singleton in Hx'. congruence. }
      destruct (IH _ Hacc') as [Hnd Hin]. split; [assumption|].
      intros x. rewrite Hin, elem_of_app, list_elem_of_singleton, elem_of_cons.
      tauto.
Qed.

Lemma fromkeys_NoDup l : NoDup (fromkeys l).
Proof. apply fromkeys_fold_spec, NoDup_nil_2. Qed.

Lemma fromkeys_elem l x : x ∈ fromkeys l <-> x ∈ l.
Proof.
  unfold fromkeys.
  destruct (fromkeys_fold_spec l [] (NoDup_nil_2 (A:=str))) as [_ H].
  rewrite H, elem_of_nil. tauto.
Qed.

Lemma fromkeys_fold_fixed l : forall acc,
  NoDup (acc ++ l) -> foldl fromkeys_step acc l = acc ++ l.
Proof.
  induction l as [|k l IH]; intros acc Hnd; simpl.
  - rewrite app_nil_r. reflexivity.
  - unfold fromkeys_step. case_bool_decide as Hk.
    + apply NoDup_app in Hnd as (_ & Hd & _). exfalso.
      apply (Hd k Hk). left.
    + rewrite IH; rewrite <- app_assoc; [reflexivity | exact Hnd].
Qed.

(** A list without duplicates is left as it is. *)
Lemma fromkeys_fixed l : NoDup l -> fromkeys l = l.
Proof. intros H. apply (fromkeys_fold_fixed l []). exact H. Qed.

End PyStrFacts.

(* ===================================================================== *)
(** ** The substitution made by [LINE_CLEAN_RE]                           *)
(* ===================================================================== *)

Module ReFacts.
Import PyStr Re App Props PyStrFacts.

(** When the continuation accepts what follows the longest run, the
    greedy repetition takes the longest run. *)
Lemma star_k_greedy p k r : forall s,
  k (dropwhile p s) = Some r -> star_k p s k = Some r.
Proof.
  induction s as [|c t IH]; simpl; [auto|].
  destruct (p c); [|auto]. intros H. rewrite (IH H). reflexivity.
Qed.

Lemma star_k_Some p s : star_k p s Some = Some (dropwhile p s).
Proof. apply star_k_greedy. reflexivity. Qed.

(** The match of [LINE_CLEAN_RE] never fails and never backtracks: it
    removes the leading white space, one marker if there is one, and the
    white space after it. *)
Lemma LINE_CLEAN_RE_sub_scan s :
  LINE_CLEAN_RE_sub s
  = dropwhile isspace (strip_marker (dropwhile isspace s)).
Proof.
  unfold LINE_CLEAN_RE_sub, sub_anchored_once, LINE_CLEAN_RE.
  cbn [match_k].
  erewrite star_k_greedy; [reflexivity|].
  generalize (dropwhile isspace s) as u. intros u.
  destruct u as [|c t]; cbn [strip_marker]; [reflexivity|].
  destruct (bullet_glyph c) eqn:Eb.
  - erewrite star_k_greedy; [reflexivity | apply star_k_Some].
  - destruct (isdecimal c) eqn:Ed.
    + erewrite star_k_greedy; [reflexivity|].
      erewrite star_k_greedy; [reflexivity | apply star_k_Some].
    + apply star_k_Some.
Qed.

Lemma strip_marker_none_in q s : none_in q s -> none_in q (strip_marker s).
Proof.
  intros H. destruct H as [|c t Hc Ht]; cbn [strip_marker]; [constructor|].
  destruct (bullet_glyph c); [apply dropwhile_none_in, Ht|].
  destruct (isdecimal c); [do 2 apply dropwhile_none_in; exact Ht|].
  constructor; assumption.
Qed.

Lemma LINE_CLEAN_RE_sub_none_in q s :
  none_in q s -> none_in q (LINE_CLEAN_RE_sub s).
Proof.
  intros H. rewrite LINE_CLEAN_RE_sub_scan.
  apply dropwhile_none_in, strip_marker_none_in, dropwhile_none_in, H.
Qed.

(** The marker removed by [strip_marker], with its maximality. *)
Lemma strip_marker_spec s :
  exists m, s = m ++ strip_marker s /\ marker_before m (strip_marker s).
Proof.
  destruct s as [|c t]; cbn [strip_marker].
  - exists []. split; [reflexivity|]. apply marker_none; exact I.
  - destruct (bullet_glyph c) eqn:Eb; [|destruct (isdecimal c) eqn:Ed].
    + exists (c :: takewhile bullet_glyph t). split.
      * simpl. f_equal. apply dropwhile_span.
      * apply marker_bullets; [discriminate | |apply dropwhile_not_starting].
        constructor; [exact Eb | apply takewhile_all].
    + set (u := dropwhile isdecimal t).
      exists ((c :: takewhile isdecimal t) ++ takewhile numeric_suffix u). split.
      * rewrite <- app_assoc, <- dropwhile_span. simpl. f_equal.
        apply dropwhile_span.
      * apply marker_numeric.
        -- discriminate.
        -- constructor; [exact Ed | apply takewhile_all].
        -- apply takewhile_all.
        -- rewrite <- dropwhile_span. apply dropwhile_not_starting.
        -- apply dropwhile_not_starting.
    + exists []. split; [reflexivity|]. apply marker_none; assumption.
Qed.

End ReFacts.

(* ===================================================================== *)
(** ** [normalize_lines]                                                  *)
(* ===================================================================== *)

Module NormalizeFacts.
Import PyStr Re App Props PyStrFacts ReFacts.

Lemma strip_nil : strip [] = [].
Proof. reflexivity. Qed.

Lemma LINE_CLEAN_RE_sub_nil : LINE_CLEAN_RE_sub [] = [].
Proof. reflexivity. Qed.

Lemma normalize_lines_body_clean cleaned raw_line :
  normalize_lines_body cleaned raw_line
  = cleaned ++ from_option (fun y => [y]) [] (clean_line raw_line).
Proof.
  unfold normalize_lines_body, clean_line.
  destruct (truthy (strip raw_line)) eqn:E; cbn [negb].
  - destruct (truthy (strip (LINE_CLEAN_RE_sub (strip raw_line)))); simpl;
      [reflexivity | rewrite app_nil_r; reflexivity].
  - apply truthy_false in E. rewrite E, LINE_CLEAN_RE_sub_nil, strip_nil.
    simpl. rewrite app_nil_r. reflexivity.
Qed.

(** The loop of [normalize_lines] collects the cleaned lines in order. *)
Lemma normalize_lines_loop lines : forall cleaned,
  foldl normalize_lines_body cleaned lines
  = cleaned ++ omap clean_line lines.
Proof.
  induction lines as [|l lines IH]; intros cleaned; simpl.
  - rewrite app_nil_r. reflexivity.
  - rewrite IH, normalize_lines_body_clean.
    destruct (clean_line l); simpl; rewrite <- app_assoc; reflexivity.
Qed.

Lemma normalize_lines_Some t :
  normalize_lines (Some t)
  = take MAX_MENU_ITEMS (fromkeys (omap clean_line (splitlines t))).
Proof.
  unfold normalize_lines. destruct t as [|c t]; [reflexivity|].
  cbn [truthy negb]. rewrite normalize_lines_loop. reflexivity.
Qed.

(** What is known of a line kept by [clean_line]. *)
Lemma clean_line_Some raw y :
  clean_line raw = Some y ->
  y = strip (LINE_CLEAN_RE_sub (strip raw)) /\ y <> [].
Proof.
  unfold clean_line. destruct (truthy _) eqn:E; [|discriminate].
  intros [= <-]. split; [reflexivity | apply truthy_true, E].
Qed.

Lemma clean_line_fixed y :
  y <> [] -> strip y = y -> LINE_CLEAN_RE_sub y = y -> clean_line y = Some y.
Proof.
  intros Hne Hs Hm. unfold clean_line. rewrite Hs, Hm, Hs.
  apply truthy_true in Hne. rewrite Hne. reflexivity.
Qed.

Lemma clean_line_none_in q raw y :
  none_in q raw -> clean_line raw = Some y -> none_in q y.
Proof.
  intros Hq Hy. apply clean_line_Some in Hy as [-> _].
  apply strip_with_none_in, LINE_CLEAN_RE_sub_none_in, strip_with_none_in, Hq.
Qed.

Lemma elem_of_normalize_lines t y :
  y ∈ normalize_lines (Some t) ->
  exists raw, raw ∈ splitlines t /\ clean_line raw = Some y.
Proof.
  rewrite normalize_lines_Some. intros H.
  apply (subseteq_take MAX_MENU_ITEMS) in H.
  apply fromkeys_elem, list_elem_of_omap in H. exact H.
Qed.

Lemma normalize_lines_length text :
  length (normalize_lines text) <= MAX_MENU_ITEMS.
Proof.
  destruct text as [t|]; [|simpl; lia].
  rewrite normalize_lines_Some, length_take. lia.
Qed.

Lemma normalize_lines_NoDup text : NoDup (normalize_lines text).
Proof.
  destruct text as [t|]; [|apply NoDup_nil_2].
  rewrite normalize_lines_Some.
  eapply sublist_NoDup; [apply fromkeys_NoDup | apply sublist_take].
Qed.

Lemma normalize_lines_nonempty text :
  Forall (fun y => y <> []) (normalize_lines text).
Proof.
  destruct text as [t|]; [|constructor].
  apply Forall_forall. intros y Hy.
  apply elem_of_normalize_lines in Hy as (raw & _ & Hy).
  apply clean_line_Some in Hy. tauto.
Qed.

(** C2. For every input, absent ([None]) or a string, [normalize_lines]
    returns a list of at most 6 entries, without duplicates and without
    empty strings; being a function of the embedding it returns on every
    input. *)
Theorem normalize_lines_bounded_distinct_nonempty (text : option str) :
  length (normalize_lines text) <= 6
  /\ NoDup (normalize_lines text)
  /\ Forall (fun y => y <> []) (normalize_lines text)
  /\ normalize_lines None = [].
Proof.
  split; [apply normalize_lines_length|].
  split; [apply normalize_lines_NoDup|].
  split; [apply normalize_lines_nonempty | reflexivity].
Qed.

(** C3, as stated, fails: a leading decimal digit followed by a
    character that is neither a digit nor one of the four suffix
    characters is still removed; the line [7 Up] is kept as [Up]. *)
Lemma numeric_prefix_without_suffix_is_stripped :
  ~ (forall d c rest,
       isdecimal d = true -> isdecimal c = false ->
       numeric_suffix c = false ->
       LINE_CLEAN_RE_sub (d :: c :: rest) = d :: c :: rest)
  /\ normalize_lines (Some (lit "7 Up")) = [lit "Up"].
Proof.
  split; [|reflexivity].
  intros H. specialize (H 0x37%N 0x20%N (lit "Up") eq_refl eq_refl eq_refl).
  vm_compute in H. discriminate H.
Qed.

(** The span of a class at the start of a string is determined. *)
Lemma span_unique p (a b a' b' : str) :
  all_in p a -> not_starting p b -> all_in p a' -> not_starting p b' ->
  a ++ b = a' ++ b' -> a = a' /\ b = b'.
Proof.
  intros Ha. revert a'. induction Ha as [|c a Hc Ha IH]; intros a' Hb Ha' Hb' E.
  - destruct Ha' as [|c' a' Hc' Ha']; [split; [reflexivity | exact E]|].
    cbn [app] in E. subst b. unfold not_starting in Hb. congruence.
  - destruct Ha' as [|c' a' Hc' Ha'].
    + cbn [app] in E. subst b'. unfold not_starting in Hb'. congruence.
    + cbn [app] in E. injection E as <- E.
      destruct (IH a' Hb Ha' Hb' E) as [-> ->]. split; reflexivity.
Qed.

Lemma bullet_glyph_not_decimal c : bullet_glyph c = true -> isdecimal c = false.
Proof.
  unfold bullet_glyph, char_in. cbn [existsb]. intros H.
  repeat (apply orb_prop in H as [H|H]); try discriminate H;
    apply N.eqb_eq in H; subst c; reflexivity.
Qed.

(** The way a line splits into one marker, the white space after it and
    the rest is determined: the rest does not depend on how the line is
    read. *)
Lemma marker_split_unique (s m ws rest m' ws' rest' : str) :
  s = m ++ ws ++ rest -> marker_before m (ws ++ rest) ->
  all_in isspace ws -> not_starting isspace rest ->
  s = m' ++ ws' ++ rest' -> marker_before m' (ws' ++ rest') ->
  all_in isspace ws' -> not_starting isspace rest' ->
  rest = rest'.
Proof.
  intros E Hm Hws Hrest E' Hm' Hws' Hrest'. rewrite E in E'. clear E s.
  assert (Hsp : forall t t', t = ws ++ rest -> t' = ws' ++ rest' -> t = t' ->
                             rest = rest').
  { intros t t' -> -> Et.
    apply (span_unique isspace ws rest ws' rest'); assumption. }
  inversion Hm as [t Hb Hd Em Et | b t Hne Hb Hnb Em Et
                   | d q t Hne Hd Hq Hnd Hnq Em Et];
    inversion Hm' as [t' Hb' Hd' Em' Et' | b' t' Hne' Hb' Hnb' Em' Et'
                      | d' q' t' Hne' Hd' Hq' Hnd' Hnq' Em' Et'];
    subst; unfold all_in in *.
  - apply (Hsp _ _ eq_refl eq_refl). exact E'.
  - exfalso. destruct Hb' as [|c b' Hc _]; [contradiction|].
    cbn [app] in E'. rewrite E' in Hb. unfold not_starting in Hb. congruence.
  - exfalso. destruct Hd' as [|c d' Hc _]; [contradiction|].
    cbn [app] in E'. rewrite E' in Hd. unfold not_starting in Hd. congruence.
  - exfalso. destruct Hb as [|c b Hc _]; [contradiction|].
    cbn [app] in E'. rewrite <- E' in Hb'. unfold not_starting in Hb'. congruence.
  - destruct (span_unique bullet_glyph _ _ _ _ Hb Hnb Hb' Hnb' E') as [_ Et].
    apply (Hsp _ _ eq_refl eq_refl). exact Et.
  - exfalso. destruct Hb as [|c b Hc _]; [contradiction|].
    destruct Hd' as [|c' d' Hc' _]; [contradiction|].
    cbn [app] in E'. injection E' as <- _.
    apply bullet_glyph_not_decimal in Hc. congruence.
  - exfalso. destruct Hd as [|c d Hc _]; [contradiction|].
    cbn [app] in E'. rewrite <- E' in Hd'. unfold not_starting in Hd'. congruence.
  - exfalso. destruct Hb' as [|c b' Hc _]; [contradiction|].
    destruct Hd as [|c' d Hc' _]; [contradiction|].
    cbn [app] in E'. injection E' as <- _.
    apply bullet_glyph_not_decimal in Hc. congruence.
  - rewrite <- !app_assoc in E'.
    destruct (span_unique isdecimal _ _ _ _ Hd Hnd Hd' Hnd' E') as [_ E2].
    destruct (span_unique numeric_suffix _ _ _ _ Hq Hnq Hq' Hnq' E2) as [_ Et].
    apply (Hsp _ _ eq_refl eq_refl). exact Et.
Qed.

(** What the loop keeps of one line: the trimmed line is one marker,
    the white space after it and a rest, and the rest, trimmed, is what
    is kept. *)
Lemma cleaned_line_one_marker (raw_line : str) :
  exists m ws rest,
    strip raw_line = m ++ ws ++ rest
    /\ marker_before m (ws ++ rest)
    /\ all_in isspace ws
    /\ not_starting isspace rest
    /\ strip (LINE_CLEAN_RE_sub (strip raw_line)) = strip rest.
Proof.
  destruct (strip_with_spec isspace raw_line)
    as (_ & _ & _ & _ & _ & Hstart & _).
  fold (strip raw_line) in Hstart.
  assert (Hsub : LINE_CLEAN_RE_sub (strip raw_line)
                 = dropwhile isspace (strip_marker (strip raw_line))).
  { rewrite LINE_CLEAN_RE_sub_scan, (dropwhile_fixed _ _ Hstart). reflexivity. }
  destruct (strip_marker_spec (strip raw_line)) as (m & Hm & Hmark).
  exists m, (takewhile isspace (strip_marker (strip raw_line))),
         (dropwhile isspace (strip_marker (strip raw_line))).
  rewrite <- dropwhile_span, Hsub.
  repeat split; try assumption.
  - apply takewhile_all.
  - apply dropwhile_not_starting.
Qed.

Lemma omap_clean_line lines :
  omap clean_line lines
  = filter (fun y => y <> [])
           (map (fun raw => strip (LINE_CLEAN_RE_sub (strip raw))) lines).
Proof.
  induction lines as [|raw lines IH]; [reflexivity|].
  cbn [map]. rewrite filter_cons. cbn. unfold clean_line at 1.
  destruct (strip (LINE_CLEAN_RE_sub (strip raw))) as [|c y] eqn:E; cbn.
  - rewrite decide_False by congruence. exact IH.
  - rewrite decide_True by congruence. rewrite IH. reflexivity.
Qed.

(** C3, amended. [normalize_lines] strips at most one leading list
    marker from every line, once: each trimmed line splits into a
    marker [m], the white space [ws] after it and a rest, where [m] is
    empty, or a maximal run of bullet glyphs, or a maximal run of
    decimal digits followed by a maximal run of zero or more of the
    characters full stop, closing parenthesis, hyphen and bullet (a run
    of digits is a marker whether or not one of those characters
    follows).  The rest is determined by the line; trimmed, it is what
    the line contributes, even when it starts with a marker again, and
    the result is the first six of these contributions that are not
    empty, without their later copies. *)
Theorem normalize_lines_strips_one_marker (t : str) :
  exists outs,
    Forall2
      (fun raw out =>
         (exists m ws rest,
            strip raw = m ++ ws ++ rest
            /\ marker_before m (ws ++ rest)
            /\ all_in isspace ws
            /\ not_starting isspace rest
            /\ out = strip rest)
         /\ (forall m ws rest,
               strip raw = m ++ ws ++ rest ->
               marker_before m (ws ++ rest) ->
               all_in isspace ws ->
               not_starting isspace rest ->
               out = strip rest))
      (splitlines t) outs
    /\ normalize_lines (Some t)
       = take 6 (fromkeys (filter (fun y => y <> []) outs)).
Proof.
  exists (map (fun raw => strip (LINE_CLEAN_RE_sub (strip raw))) (splitlines t)).
  split.
  - induction (splitlines t) as [|raw lines IH]; constructor; [|exact IH].
    destruct (cleaned_line_one_marker raw)
      as (m & ws & rest & E & Hm & Hws & Hrest & Hout).
    split.
    + exists m, ws, rest. repeat split; assumption.
    + intros m' ws' rest' E' Hm' Hws' Hrest'. rewrite Hout. f_equal.
      apply (marker_split_unique (strip raw) m ws rest m' ws' rest');
        assumption.
  - rewrite normalize_lines_Some, omap_clean_line. reflexivity.
Qed.

(** The strip is not repeated: a second marker stays. *)
Example normalize_lines_second_marker_stays :
  normalize_lines (Some (lit "- - x")) = [lit "- x"]
  /\ normalize_lines (Some (lit "1. 2) x")) = [lit "2) x"].
Proof. split; reflexivity. Qed.

(** The example of the specification. *)
Example normalize_lines_pad_thai :
  normalize_lines
    (Some (lit "- Pad Thai" ++ [LF] ++ lit "- Pad Thai" ++ [LF]
           ++ lit "2. Tom Yum" ++ [LF; LF] ++ lit "* Green Curry"))
  = [lit "Pad Thai"; lit "Tom Yum"; lit "Green Curry"].
Proof. reflexivity. Qed.

Lemma omap_fixed {A} (f : A -> option A) (l : list A) :
  Forall (fun y => f y = Some y) l -> omap f l = l.
Proof.
  induction 1 as [|y l Hy _ IH]; [reflexivity|].
  cbn. rewrite Hy, IH. reflexivity.
Qed.

(** A string that starts with neither white space, nor a bullet glyph,
    nor a decimal digit is left as it is by the substitution. *)
Lemma LINE_CLEAN_RE_sub_fixed y :
  not_starting isspace y -> not_starting bullet_glyph y ->
  not_starting isdecimal y -> LINE_CLEAN_RE_sub y = y.
Proof.
  intros Hs Hb Hd. rewrite LINE_CLEAN_RE_sub_scan, (dropwhile_fixed _ _ Hs).
  assert (E : strip_marker y = y).
  { destruct y as [|c y]; [reflexivity|]. unfold not_starting in Hb, Hd.
    cbn [strip_marker]. rewrite Hb, Hd. reflexivity. }
  rewrite E. apply dropwhile_fixed, Hs.
Qed.

(** The entries of the result are fixed by a second pass, as soon as
    none of them starts with a bullet glyph or a decimal digit. *)
Lemma normalize_lines_entries_fixed x :
  Forall (fun raw =>
            not_starting bullet_glyph (strip (LINE_CLEAN_RE_sub (strip raw)))
            /\ not_starting isdecimal (strip (LINE_CLEAN_RE_sub (strip raw))))
         (splitlines x) ->
  Forall (fun y => (y <> [] /\ none_in islinebreak y) /\ clean_line y = Some y)
         (normalize_lines (Some x)).
Proof.
  intros Hx. apply Forall_forall. intros y Hy.
  apply elem_of_normalize_lines in Hy as (raw & Hraw & Hy).
  pose proof (proj1 (Forall_forall _ _) (splitlines_no_break x) _ Hraw) as Hnb.
  pose proof (proj1 (Forall_forall _ _) Hx _ Hraw) as [Hb Hd].
  pose proof (clean_line_none_in _ _ _ Hnb Hy) as Hyb.
  apply clean_line_Some in Hy as [Hy Hne].
  rewrite <- Hy in Hb, Hd.
  destruct (strip_with_spec isspace (LINE_CLEAN_RE_sub (strip raw)))
    as (_ & _ & _ & _ & _ & Hs & He).
  fold (strip (LINE_CLEAN_RE_sub (strip raw))) in Hs, He.
  rewrite <- Hy in Hs, He.
  split; [split; assumption|].
  apply clean_line_fixed; [assumption | | ].
  - apply strip_with_fixed; assumption.
  - apply LINE_CLEAN_RE_sub_fixed; assumption.
Qed.

(** C4, as stated, fails: the only line of [- 7 Up] is kept as [7 Up],
    which starts with no bullet glyph and whose digit is followed by a
    space, none of the four suffix characters; yet the second pass
    strips the digit and gives [Up]. *)
Lemma idempotence_fails_on_bare_digits :
  ~ (forall x : str,
       Forall (fun raw =>
                 match strip (LINE_CLEAN_RE_sub (strip raw)) with
                 | c :: rest =>
                     bullet_glyph c = false
                     /\ (isdecimal c = true ->
                         match dropwhile isdecimal rest with
                         | c' :: _ => numeric_suffix c' = false
                         | [] => True
                         end)
                 | [] => True
                 end)
              (splitlines x) ->
       normalize_lines (Some (join NL (normalize_lines (Some x))))
       = normalize_lines (Some x))
  /\ normalize_lines (Some (lit "- 7 Up")) = [lit "7 Up"]
  /\ normalize_lines (Some (join NL (normalize_lines (Some (lit "- 7 Up")))))
     = [lit "Up"].
Proof.
  split; [|split; reflexivity].
  intros H. specialize (H (lit "- 7 Up")).
  replace (splitlines (lit "- 7 Up")) with [lit "- 7 Up"] in H by reflexivity.
  assert (E : normalize_lines
                (Some (join NL (normalize_lines (Some (lit "- 7 Up")))))
              = normalize_lines (Some (lit "- 7 Up"))).
  { apply H. constructor; [|constructor]. vm_compute.
    split; [reflexivity | intros _; reflexivity]. }
  vm_compute in E. discriminate E.
Qed.

(** C4, amended. For every string [x] none of whose lines, after the
    trim and the single strip, starts with a bullet glyph or with a
    decimal digit (a run of digits is a marker for the code whether or
    not a full stop, closing parenthesis, hyphen or bullet follows it),
    [normalize_lines] applied to the newline-join of [normalize_lines x]
    gives [normalize_lines x]. *)
Theorem normalize_lines_idempotent (x : str) :
  Forall (fun raw =>
            not_starting bullet_glyph (strip (LINE_CLEAN_RE_sub (strip raw)))
            /\ not_starting isdecimal (strip (LINE_CLEAN_RE_sub (strip raw))))
         (splitlines x) ->
  normalize_lines (Some (join NL (normalize_lines (Some x))))
  = normalize_lines (Some x).
Proof.
  intros Hx. pose proof (normalize_lines_entries_fixed x Hx) as Hout.
  apply Forall_and in Hout as [Hlines Hfixed].
  rewrite (normalize_lines_Some (join NL _)). unfold NL.
  rewrite (splitlines_join _ Hlines), (omap_fixed _ _ Hfixed).
  rewrite (fromkeys_fixed _ (normalize_lines_NoDup _)).
  apply take_ge, normalize_lines_length.
Qed.

Lemma normalize_lines_idempotent_witness :
  normalize_lines
    (Some (join NL (normalize_lines (Some (lit "- Pad Thai" ++ [LF]
             ++ lit "2. Tom Yum" ++ [LF; LF] ++ lit "* Green Curry")))))
  = normalize_lines (Some (lit "- Pad Thai" ++ [LF]
             ++ lit "2. Tom Yum" ++ [LF; LF] ++ lit "* Green Curry")).
Proof.
  apply normalize_lines_idempotent.
  repeat constructor; vm_compute; reflexivity.
Defined.

(** The hypothesis on the lines is needed: with a second marker in a
    line the second pass strips again; a run of digits left in front by
    the first pass is such a marker. *)
Example normalize_lines_not_idempotent :
  normalize_lines (Some (lit "- - x")) = [lit "- x"]
  /\ normalize_lines (Some (join NL (normalize_lines (Some (lit "- - x")))))
     = [lit "x"]
  /\ normalize_lines (Some (lit "1. 2) x")) = [lit "2) x"]
  /\ normalize_lines (Some (join NL (normalize_lines (Some (lit "1. 2) x")))))
     = [lit "x"].
Proof. repeat split; reflexivity. Qed.

End NormalizeFacts.
(* ===================================================================== *)
(** ** [clean_restaurant_name], [to_display_list], [to_export_v2]        *)
(* ===================================================================== *)

Module ExportFacts.
Import PyStr Re App Props PyStrFacts.

Lemma char_in_spec chars c : char_in chars c = true <-> c ∈ chars.
Proof.
  unfold char_in. rewrite existsb_exists. split.
  - intros (x & Hx & Hc). apply N.eqb_eq in Hc. subst x.
    apply list_elem_of_In, Hx.
  - intros H. exists c. split; [apply list_elem_of_In, H | apply N.eqb_refl].
Qed.

Lemma clean_restaurant_name_Some n :
  clean_restaurant_name (Some n)
  = strip (strip_chars QUOTE_CLEAN_CHARS (strip n)).
Proof. destruct n; reflexivity. Qed.

(** C8. [clean_restaurant_name] returns the empty string on an absent or
    empty name; otherwise it removes white space from both ends, then
    the quote characters (straight double and single quote, the curly
    double and single quotes, the backtick) from both ends, then white
    space from both ends again, each time as far as possible; on the
    name [ "Spice Route"  ] (one space before, two after the quoted
    text) it returns [Spice Route]. *)
Theorem clean_restaurant_name_spec :
  clean_restaurant_name None = []
  /\ clean_restaurant_name (Some []) = []
  /\ (forall c, char_in QUOTE_CLEAN_CHARS c = true
                <-> c ∈ [0x22; 0x27; 0x201C; 0x201D; 0x2018; 0x2019; 0x60]%N)
  /\ (forall n, exists w1 q1 w2 w3 q2 w4,
        let r := clean_restaurant_name (Some n) in
        n = w1 ++ (q1 ++ (w2 ++ r ++ w3) ++ q2) ++ w4
        /\ (all_in isspace w1 /\ all_in isspace w4
            /\ not_starting isspace (q1 ++ (w2 ++ r ++ w3) ++ q2)
            /\ not_ending isspace (q1 ++ (w2 ++ r ++ w3) ++ q2))
        /\ (all_in (char_in QUOTE_CLEAN_CHARS) q1
            /\ all_in (char_in QUOTE_CLEAN_CHARS) q2
            /\ not_starting (char_in QUOTE_CLEAN_CHARS) (w2 ++ r ++ w3)
            /\ not_ending (char_in QUOTE_CLEAN_CHARS) (w2 ++ r ++ w3))
        /\ (all_in isspace w2 /\ all_in isspace w3
            /\ not_starting isspace r /\ not_ending isspace r))
  /\ clean_restaurant_name
       (Some (lit " " ++ [0x22%N] ++ lit "Spice Route" ++ [0x22%N] ++ lit "  "))
     = lit "Spice Route".
Proof.
  split; [reflexivity|]. split; [reflexivity|].
  split; [intros c; apply char_in_spec|].
  split; [|reflexivity].
  intros n. rewrite clean_restaurant_name_Some.
  destruct (strip_with_spec isspace n)
    as (w1 & w4 & Hn & Hw1 & Hw4 & Hs1 & He1).
  fold (strip n) in *.
  destruct (strip_with_spec (char_in QUOTE_CLEAN_CHARS) (strip n))
    as (q1 & q2 & Ha & Hq1 & Hq2 & Hs2 & He2).
  fold (strip_chars QUOTE_CLEAN_CHARS (strip n)) in *.
  destruct (strip_with_spec isspace (strip_chars QUOTE_CLEAN_CHARS (strip n)))
    as (w2 & w3 & Hb & Hw2 & Hw3 & Hs3 & He3).
  fold (strip (strip_chars QUOTE_CLEAN_CHARS (strip n))) in *.
  exists w1, q1, w2, w3, q2, w4. cbv zeta.
  rewrite <- Hb, <- Ha, <- Hn. tauto.
Qed.

(** C10. For every list of items and every style other than [Bullets]
    and [Numbered], [to_display_list] returns the items joined by
    newlines, without any prefix. *)
Theorem to_display_list_other_style (items : list str) (style : str) :
  style <> lit "Bullets" -> style <> lit "Numbered" ->
  to_display_list items style = join NL items.
Proof.
  intros Hb Hn. unfold to_display_list, str_eqb.
  rewrite !bool_decide_eq_false_2 by assumption. reflexivity.
Qed.

Lemma to_display_list_other_style_witness :
  to_display_list [lit "Tacos"; lit "Elote"] (lit "Plain lines")
  = join NL [lit "Tacos"; lit "Elote"]
  /\ to_display_list [lit "Tacos"; lit "Elote"] [] = lit "Tacos" ++ [LF] ++ lit "Elote".
Proof.
  split; apply to_display_list_other_style; discriminate.
Defined.

(** The two known styles, for comparison. *)
Example to_display_list_known_styles :
  to_display_list [lit "Tacos"; lit "Elote"] (lit "Bullets")
  = lit "- Tacos" ++ [LF] ++ lit "- Elote"
  /\ to_display_list [lit "Tacos"; lit "Elote"] (lit "Numbered")
     = lit "1. Tacos" ++ [LF] ++ lit "2. Elote".
Proof. split; reflexivity. Qed.

(** *** The export without drinks *)

Lemma concat_map_snoc {A B} (f : A -> list B) l x :
  concat (map f (l ++ [x])) = concat (map f l) ++ f x.
Proof. rewrite map_app, concat_app. simpl. rewrite app_nil_r. reflexivity. Qed.

(** Evaluate the literals of the goal and compare the two sides as
    flat concatenations. *)
Ltac eval_lits :=
  repeat match goal with
         | |- context [lit ?s] =>
             let v := eval vm_compute in (lit s) in change (lit s) with v
         end.

Ltac list_norm :=
  eval_lits; unfold NL;
  repeat first [rewrite <- app_assoc | progress cbn [app]];
  reflexivity.

(** The text export: whatever the first parts are, the label of the
    menu stops the left trim, and the placeholder ends the text. *)
Lemma plain_export_tail (P items : list str) :
  strip (join NL ((((P ++ [LF :: lit "Menu Items"]) ++ items)
                   ++ [LF :: lit "Drinks"]) ++ [lit "(none)"]))
  = (dropwhile isspace (concat (map (fun p => p ++ NL) P) ++ [LF])
     ++ lit "Menu Items" ++ NL ++ concat (map (fun p => p ++ NL) items))
    ++ [LF] ++ lit "Drinks" ++ [LF] ++ lit "(none)".
Proof.
  rewrite join_snoc, concat_map_snoc, map_app, concat_app, concat_map_snoc.
  set (cP := concat (map (fun p => p ++ NL) P)).
  set (cI := concat (map (fun p => p ++ NL) items)).
  unfold strip.
  transitivity (strip_with isspace
    ((cP ++ [LF]) ++ 0x4D%N
       :: (lit "enu Items" ++ NL ++ cI ++ [LF] ++ lit "Drinks" ++ NL
           ++ lit "(none") ++ [0x29%N])).
  - f_equal. list_norm.
  - rewrite strip_with_keep by reflexivity. list_norm.
Qed.

(** The Markdown export: the heading of the name starts with a hash, so
    the left trim removes nothing, and the placeholder ends the text. *)
Lemma markdown_export_tail (P : list str) (h : str) (P' : list str) (B : str) :
  P = (0x23%N :: h) :: P' ->
  strip (join (NL ++ NL) ((((P ++ [LF :: lit "### Menu Items"]) ++ [B])
                           ++ [LF :: lit "### Drinks"]) ++ [lit "_(none)_"]))
  = (concat (map (fun p => p ++ NL ++ NL) P) ++ LF :: lit "### Menu Items"
     ++ NL ++ NL ++ B ++ NL ++ NL)
    ++ [LF] ++ lit "### Drinks" ++ [LF; LF] ++ lit "_(none)_".
Proof.
  intros ->. rewrite join_snoc, !concat_map_snoc.
  set (cP := concat (map (fun p => p ++ NL ++ NL) P')).
  unfold strip.
  transitivity (strip_with isspace
    ([] ++ 0x23%N
       :: (h ++ NL ++ NL ++ cP ++ LF :: lit "### Menu Items" ++ NL ++ NL ++ B
           ++ NL ++ NL ++ LF :: lit "### Drinks" ++ NL ++ NL ++ lit "_(none)")
       ++ [0x5F%N])).
  - f_equal. cbn [map concat]. fold cP. list_norm.
  - rewrite strip_with_keep by reflexivity. cbn [map concat]. fold cP.
    list_norm.
Qed.

Lemma to_export_v2_no_drinks name items fmt slogan description drinks :
  drinks = None \/ drinks = Some [] ->
  exists pre,
    to_export_v2 name items fmt slogan description drinks
    = pre ++ no_drinks_tail fmt.
Proof.
  intros Hd. unfold to_export_v2, no_drinks_tail.
  assert (Hnone : match drinks with Some (d :: ds) => d :: ds | _ => [] end = [])
    by (destruct Hd as [-> | ->]; reflexivity).
  rewrite Hnone. clear Hd Hnone. cbn [truthy].
  destruct (str_eqb fmt (lit "Markdown")).
  - destruct (truthy slogan), (truthy description); cbv zeta;
      eexists; (erewrite markdown_export_tail; [|reflexivity]);
      reflexivity.
  - destruct (truthy slogan), (truthy description); cbv zeta;
      rewrite plain_export_tail; eexists; reflexivity.
Qed.

(** C7. For every result whose list of drinks is empty, the export ends
    with the line of the Drinks section followed by the placeholder: in
    the text format the line [Drinks] and then the line [(none)]; in the
    Markdown format the line [### Drinks], an empty line, and then
    [(none)] between two underscores. *)
Theorem to_export_v2_empty_drinks
    (name : str) (items : list str) (fmt slogan description : str) :
  exists pre,
    to_export_v2 name items fmt slogan description (Some [])
    = pre ++ (if str_eqb fmt (lit "Markdown")
              then [LF] ++ lit "### Drinks" ++ [LF; LF]
                   ++ lit "_" ++ lit "(none)" ++ lit "_"
              else [LF] ++ lit "Drinks" ++ [LF] ++ lit "(none)").
Proof.
  apply (to_export_v2_no_drinks name items fmt slogan description (Some [])).
  right. reflexivity.
Qed.

(** C9. For every name, list of items, format, slogan and description,
    [to_export_v2] with the drinks absent returns the same string as
    with an empty list of drinks, and that string ends with the Drinks
    section and its placeholder. *)
Theorem to_export_v2_drinks_absent
    (name : str) (items : list str) (fmt slogan description : str) :
  to_export_v2 name items fmt slogan description None
  = to_export_v2 name items fmt slogan description (Some [])
  /\ exists pre,
       to_export_v2 name items fmt slogan description None
       = pre ++ (if str_eqb fmt (lit "Markdown")
                 then [LF] ++ lit "### Drinks" ++ [LF; LF]
                      ++ lit "_" ++ lit "(none)" ++ lit "_"
                 else [LF] ++ lit "Drinks" ++ [LF] ++ lit "(none)").
Proof.
  split; [reflexivity|].
  apply (to_export_v2_no_drinks name items fmt slogan description None).
  left. reflexivity.
Qed.

(** The exports of one result in the two formats. *)
Example to_export_v2_samples :
  to_export_v2 (lit "Casa") [lit "a"; lit "b"] (lit "Text")
               (lit "slo") (lit "desc") (Some [])
  = lit "Casa" ++ [LF] ++ lit "slo" ++ [LF] ++ lit "desc" ++ [LF; LF]
    ++ lit "Menu Items" ++ [LF] ++ lit "a" ++ [LF] ++ lit "b" ++ [LF; LF]
    ++ lit "Drinks" ++ [LF] ++ lit "(none)"
  /\ to_export_v2 (lit "Casa") [lit "a"; lit "b"] (lit "Markdown")
                  (lit "slo") [] None
     = lit "## Casa" ++ [LF; LF] ++ lit "*slo*" ++ [LF; LF; LF]
       ++ lit "### Menu Items" ++ [LF; LF] ++ lit "- a" ++ [LF] ++ lit "- b"
       ++ [LF; LF; LF] ++ lit "### Drinks" ++ [LF; LF] ++ lit "_(none)_".
Proof. split; reflexivity. Qed.

End ExportFacts.

(* ===================================================================== *)
(** ** The chain and the handler                                          *)
(* ===================================================================== *)

Module ChainFacts.
Import PyStr Re App Chain Props PyStrFacts NormalizeFacts.

(** *** Runs of the sub-chains *)

(** A sub-chain [prompt | llm | parser]: the prompt is formatted, sent
    once, and the answer or the failure of the model is the result. *)
Lemma prompt_chain_run llm t d log :
  pipe (pipe (prompt_runnable t) (llm_runnable llm)) parser d log
  = match format_prompt t d with
    | inr p => (llm log p, log ++ [p])
    | inl e => (inl e, log)
    end.
Proof.
  unfold pipe, prompt_runnable, llm_runnable, parser, bind, lift, call_llm,
    ret, raise.
  destruct (format_prompt t d) as [e|p]; [reflexivity|].
  destruct (llm log p); reflexivity.
Qed.

Lemma assign_run k (r : Runnable (gmap string str) str) d log :
  assign k r d log
  = match r d log with
    | (inr v, l) => (inr (<[k := v]> d), l)
    | (inl e, l) => (inl e, l)
    end.
Proof.
  unfold assign, bind, ret. destruct (r d log) as [[e|v] l]; reflexivity.
Qed.

Lemma first_missing_agree vars (d d' : gmap string str) :
  (forall k, k ∈ vars -> d !! k = d' !! k) ->
  first_missing vars d = first_missing vars d'.
Proof.
  induction vars as [|k vars IH]; intros H; simpl; [reflexivity|].
  rewrite <- (H k) by left. rewrite IH; [reflexivity|].
  intros k' Hk'. apply H. right. exact Hk'.
Qed.

Lemma render_agree t (d d' : gmap string str) :
  (forall k, Field k ∈ t -> d !! k = d' !! k) -> render t d = render t d'.
Proof.
  induction t as [|[s|k] t IH]; intros H; simpl; [reflexivity| |].
  - rewrite IH; [reflexivity|]. intros k Hk. apply H. right. exact Hk.
  - rewrite <- (H k) by left. rewrite IH; [reflexivity|].
    intros k' Hk'. apply H. right. exact Hk'.
Qed.

Lemma format_prompt_agree t (d d' : gmap string str) :
  about_cuisine_and_name t ->
  d !! "cuisine" = d' !! "cuisine" ->
  d !! "restaurant_name" = d' !! "restaurant_name" ->
  format_prompt t d = format_prompt t d'.
Proof.
  intros [Hv Hf] Hc Hn. unfold format_prompt.
  rewrite (first_missing_agree _ d d'), (render_agree _ d d'); [reflexivity| |].
  - intros k Hk. destruct (Hf k Hk) as [-> | ->]; assumption.
  - intros k Hk. destruct (Hv k Hk) as [-> | ->]; assumption.
Qed.

Ltac in_list H :=
  repeat (apply elem_of_cons in H as [H|H]; [try discriminate H|]);
  try (apply elem_of_nil in H; contradiction).

Lemma step2_prompts_about_cuisine_and_name :
  about_cuisine_and_name menu_prompt /\ about_cuisine_and_name drinks_prompt
  /\ about_cuisine_and_name slogan_prompt
  /\ about_cuisine_and_name description_prompt.
Proof.
  repeat split; intros k H; cbn [input_variables template menu_prompt
    drinks_prompt slogan_prompt description_prompt] in H;
    in_list H; try (injection H as ->); subst; auto.
Qed.

Lemma prompt_chain_reads llm t :
  about_cuisine_and_name t ->
  reads_cuisine_and_name (pipe (pipe (prompt_runnable t) (llm_runnable llm)) parser).
Proof.
  intros Ht d d' Hc Hn log. rewrite !prompt_chain_run.
  rewrite (format_prompt_agree t d d' Ht Hc Hn). reflexivity.
Qed.

Lemma prompt_chain_history_free llm t :
  deterministic llm ->
  history_free (pipe (pipe (prompt_runnable t) (llm_runnable llm)) parser).
Proof.
  intros Hdet d log log'. rewrite !prompt_chain_run.
  destruct (format_prompt t d); [reflexivity|]. simpl. apply Hdet.
Qed.

(** With a deterministic model, each of the four assignments after the
    name reads the cuisine and the name only, and writes a key of its
    own. *)
Lemma step2_independent llm :
  deterministic llm -> Forall independent_step (step2 llm).
Proof.
  intros Hdet.
  destruct step2_prompts_about_cuisine_and_name as (Hm & Hd & Hs & Hx).
  unfold step2, independent_step, out_keys.
  repeat apply Forall_cons_2; try apply Forall_nil_2; cbn [fst snd];
    (split; [set_solver|split]).
  - intros d d' Hc Hn log. unfold build_menu, get_or_empty.
    rewrite Hc, Hn. reflexivity.
  - intros d log log'. unfold build_menu.
    apply (prompt_chain_history_free llm menu_prompt Hdet).
  - intros d d' Hc Hn log. unfold build_drinks, get_or_empty.
    rewrite Hc, Hn. reflexivity.
  - intros d log log'. unfold build_drinks.
    apply (prompt_chain_history_free llm drinks_prompt Hdet).
  - apply prompt_chain_reads, Hs.
  - apply prompt_chain_history_free, Hdet.
  - apply prompt_chain_reads, Hx.
  - apply prompt_chain_history_free, Hdet.
Qed.

Lemma step2_keys llm : map fst (step2 llm) = out_keys.
Proof. reflexivity. Qed.

Lemma out_keys_NoDup : NoDup out_keys.
Proof. apply (bool_decide_unpack _). reflexivity. Qed.

(** *** Runs of the assignments *)

Lemma outcome_ret {A} (a : A) log : outcome (ret a log) = Some a.
Proof. reflexivity. Qed.

Lemma assign_all_cons_outcome s r d log :
  history_free (snd s) ->
  outcome (assign_all (s :: r) d log)
  = match fst (snd s d []) with
    | inr v => outcome (assign_all r (<[fst s := v]> d) (snd (snd s d log)))
    | inl _ => None
    end.
Proof.
  intros Hfree. cbn [assign_all]. unfold bind at 1. rewrite assign_run.
  rewrite <- (Hfree d log []).
  destruct (snd s d log) as [[e|v] l]; reflexivity.
Qed.

Lemma independent_step_insert s k v (d : gmap string str) log :
  independent_step s -> k ∈ out_keys ->
  snd s (<[k := v]> d) log = snd s d log.
Proof.
  intros (_ & Hreads & _) Hk. apply Hreads;
    apply lookup_insert_ne; intros ->; unfold out_keys in Hk; in_list Hk.
Qed.

(** The outcome of a run of independent assignments does not depend on
    the prompts sent before it. *)
Lemma assign_all_history l :
  Forall independent_step l ->
  forall d log log',
    outcome (assign_all l d log) = outcome (assign_all l d log').
Proof.
  induction 1 as [|s l Hs Hl IH]; intros d log log'; [reflexivity|].
  rewrite !assign_all_cons_outcome by apply Hs.
  destruct (fst (snd s d [])); [reflexivity | apply IH].
Qed.

(** Independent assignments to distinct keys may be run in any order. *)
Lemma assign_all_perm l l' :
  Permutation l l' ->
  NoDup (map fst l) -> Forall independent_step l ->
  forall d log log',
    outcome (assign_all l d log) = outcome (assign_all l' d log').
Proof.
  induction 1 as [|x l l' Hp IH|x y l|l l' l'' Hp1 IH1 Hp2 IH2];
    intros Hnd Hall d log log'.
  - reflexivity.
  - apply Forall_cons in Hall as [Hx Hall]. apply NoDup_cons in Hnd as [_ Hnd].
    rewrite !assign_all_cons_outcome by apply Hx.
    destruct (fst (snd x d [])); [reflexivity | apply IH; assumption].
  - apply Forall_cons in Hall as [Hy Hall].
    apply Forall_cons in Hall as [Hx Hall].
    apply NoDup_cons in Hnd as [Hne _].
    assert (Hxy : fst x <> fst y).
    { intros E. apply Hne. cbn [map]. rewrite E. left. }
    rewrite (assign_all_cons_outcome y (x :: l)),
      (assign_all_cons_outcome x (y :: l)) by (apply Hx || apply Hy).
    destruct (fst (snd y d [])) as [e|vy] eqn:Ey,
             (fst (snd x d [])) as [e'|vx] eqn:Ex; try reflexivity.
    + rewrite assign_all_cons_outcome by apply Hy.
      rewrite (independent_step_insert y) by (assumption || apply Hx).
      rewrite Ey. reflexivity.
    + rewrite assign_all_cons_outcome by apply Hx.
      rewrite (independent_step_insert x) by (assumption || apply Hy).
      rewrite Ex. reflexivity.
    + rewrite !assign_all_cons_outcome by (apply Hx || apply Hy).
      rewrite (independent_step_insert x), (independent_step_insert y)
        by (assumption || apply Hx || apply Hy).
      rewrite Ex, Ey, (insert_insert_ne d (fst x) (fst y)) by assumption.
      apply assign_all_history, Hall.
  - rewrite (IH1 Hnd Hall d log log). apply IH2.
    + rewrite <- (Permutation_map fst Hp1). exact Hnd.
    + rewrite <- Hp1. exact Hall.
Qed.

Lemma fold_pipe_assign steps :
  forall (c : Runnable (gmap string str) (gmap string str)) d log,
    foldl (fun chain s => pipe chain (assign (fst s) (snd s))) c steps d log
    = bind (c d) (assign_all steps) log.
Proof.
  induction steps as [|s steps IH]; intros c d log; cbn [foldl].
  - unfold bind, assign_all, ret. destruct (c d log) as [[e|d1] l]; reflexivity.
  - rewrite IH. unfold pipe, bind. cbn [assign_all]. unfold bind.
    destruct (c d log) as [[e|d1] l]; reflexivity.
Qed.

(** The chain: the name first, then the other assignments. *)
Lemma build_chain_in_order_run llm steps d log :
  build_chain_in_order llm steps d log
  = bind (assign "restaurant_name" (name_chain llm) d) (assign_all steps) log.
Proof. apply fold_pipe_assign. Qed.

Lemma build_chain_in_source_order llm :
  build_chain llm = build_chain_in_order llm (step2 llm).
Proof. reflexivity. Qed.

Lemma run_handler_outcome chain chain' cuisine log :
  outcome (chain {["cuisine" := cuisine]} log)
  = outcome (chain' {["cuisine" := cuisine]} log) ->
  outcome (run_handler chain cuisine log)
  = outcome (run_handler chain' cuisine log).
Proof.
  unfold run_handler, bind, outcome.
  destruct (chain _ log) as [[e|res] l], (chain' _ log) as [[e'|res'] l'];
    cbn [fst]; intros H; try discriminate H; [reflexivity|].
  injection H as ->. unfold lift, ret, raise.
  destruct (validate res'); reflexivity.
Qed.

(** *** The statements about the chain *)

(** The name prompt can always be formatted from the cuisine. *)
Lemma name_prompt_formats cuisine :
  format_prompt name_prompt {["cuisine" := cuisine]}
  = inr (lit "You are a brand consultant. Give a short, catchy, brandable restaurant name for "
         ++ cuisine
         ++ lit " cuisine. Return ONLY the name, no quotes or extra text.").
Proof.
  unfold format_prompt. cbn [input_variables template name_prompt
    first_missing render].
  rewrite lookup_singleton_eq. rewrite app_nil_r. reflexivity.
Qed.

(** C5. When the call for the name fails, the chain stops with that
    failure: the only prompt sent to the model is the name prompt, none
    of the menu, drinks, slogan and description prompts is sent, and the
    call is not tried again. *)
Theorem name_failure_stops_chain
    (llm : LLM) (cuisine p : str) (e : exn) (log : list str) :
  format_prompt name_prompt {["cuisine" := cuisine]} = inr p ->
  llm log p = inl e ->
  build_chain llm {["cuisine" := cuisine]} log = (inl e, log ++ [p])
  /\ generate llm cuisine log = (inl e, log ++ [p]).
Proof.
  intros Hp He.
  assert (Hchain : build_chain llm {["cuisine" := cuisine]} log
                   = (inl e, log ++ [p])).
  { rewrite build_chain_in_source_order, build_chain_in_order_run.
    unfold bind. rewrite assign_run. unfold name_chain.
    rewrite prompt_chain_run, Hp, He. reflexivity. }
  split; [exact Hchain|].
  unfold generate, run_handler, bind. rewrite Hchain. reflexivity.
Qed.

Lemma name_failure_stops_chain_witness :
  exists p,
    build_chain Samples.failing_llm {["cuisine" := lit "Thai"]} []
    = (inl (UpstreamError (lit "timeout")), [] ++ [p])
    /\ generate Samples.failing_llm (lit "Thai") []
       = (inl (UpstreamError (lit "timeout")), [] ++ [p]).
Proof.
  eexists. apply name_failure_stops_chain.
  - apply name_prompt_formats.
  - reflexivity.
Defined.

(** C6. With a deterministic model, running the four assignments that
    follow the name in any order gives the same outcome as the order of
    the source: the same dict of the five texts when every call
    succeeds, hence the same assembled result, and no result in both
    cases otherwise. *)
Theorem step2_order_irrelevant
    (llm : LLM) (cuisine : str)
    (steps : list (string * Runnable (gmap string str) str))
    (log : list str) :
  deterministic llm ->
  Permutation steps (step2 llm) ->
  outcome (build_chain_in_order llm steps {["cuisine" := cuisine]} log)
  = outcome (build_chain llm {["cuisine" := cuisine]} log)
  /\ outcome (run_handler (build_chain_in_order llm steps) cuisine log)
     = outcome (generate llm cuisine log).
Proof.
  intros Hdet Hperm.
  assert (Hchain :
    outcome (build_chain_in_order llm steps {["cuisine" := cuisine]} log)
    = outcome (build_chain llm {["cuisine" := cuisine]} log)).
  { rewrite build_chain_in_source_order, !build_chain_in_order_run.
    unfold bind.
    destruct (assign "restaurant_name" (name_chain llm) _ log) as [[e|d1] l];
      [reflexivity|].
    apply assign_all_perm; [exact Hperm | |].
    - rewrite (Permutation_map fst Hperm), step2_keys. apply out_keys_NoDup.
    - rewrite Hperm. apply step2_independent, Hdet. }
  split; [exact Hchain|].
  apply run_handler_outcome, Hchain.
Qed.

Lemma step2_order_irrelevant_witness :
  outcome (build_chain_in_order Samples.casa_verde_llm
             (rev (step2 Samples.casa_verde_llm))
             {["cuisine" := lit "Mexican"]} [])
  = outcome (build_chain Samples.casa_verde_llm
               {["cuisine" := lit "Mexican"]} [])
  /\ outcome (run_handler
                (build_chain_in_order Samples.casa_verde_llm
                   (rev (step2 Samples.casa_verde_llm)))
                (lit "Mexican") [])
     = outcome (generate Samples.casa_verde_llm (lit "Mexican") []).
Proof.
  apply step2_order_irrelevant.
  - intros h h' p. reflexivity.
  - symmetry. apply Permutation_rev.
Defined.

(** Determinism is needed: a model that counts its calls gives the menu
    another text when the menu is asked last. *)
Example order_matters_without_determinism :
  (menu_items <$> outcome (generate Samples.counting_llm (lit "Thai") []))
  = Some [lit "Dish 1"]
  /\ (menu_items <$> outcome (run_handler
        (build_chain_in_order Samples.counting_llm
           (rev (step2 Samples.counting_llm))) (lit "Thai") []))
     = Some [lit "Dish 4"].
Proof. split; vm_compute; reflexivity. Qed.

(** The chain returns a dict exactly when its five calls returned text:
    the dict holds the five texts beside the cuisine, and five prompts
    were sent. *)
Lemma build_chain_returns llm cuisine log res log' :
  build_chain llm {["cuisine" := cuisine]} log = (inr res, log') ->
  exists name menu drinks slogan description,
    res = <["description" := description]>
            (<["slogan" := slogan]>
               (<["drink_items" := drinks]>
                  (<["menu_items" := menu]>
                     (<["restaurant_name" := name]>
                        {["cuisine" := cuisine]}))))
    /\ length log' = length log + 5.
Proof.
  rewrite build_chain_in_source_order, build_chain_in_order_run.
  unfold step2. cbn [assign_all fst snd]. unfold bind.
  rewrite assign_run. unfold name_chain. rewrite prompt_chain_run.
  destruct (format_prompt name_prompt _) as [?|p1]; [discriminate|].
  destruct (llm log p1) as [?|name]; [discriminate|].
  rewrite assign_run. unfold build_menu, menu_chain. rewrite prompt_chain_run.
  destruct (format_prompt menu_prompt _) as [?|p2]; [discriminate|].
  destruct (llm _ p2) as [?|menu]; [discriminate|].
  rewrite assign_run. unfold build_drinks, drinks_chain.
  rewrite prompt_chain_run.
  destruct (format_prompt drinks_prompt _) as [?|p3]; [discriminate|].
  destruct (llm _ p3) as [?|drinks]; [discriminate|].
  rewrite assign_run. unfold slogan_chain. rewrite prompt_chain_run.
  destruct (format_prompt slogan_prompt _) as [?|p4]; [discriminate|].
  destruct (llm _ p4) as [?|slogan]; [discriminate|].
  rewrite assign_run. unfold description_chain. rewrite prompt_chain_run.
  destruct (format_prompt description_prompt _) as [?|p5]; [discriminate|].
  destruct (llm _ p5) as [?|description]; [discriminate|].
  unfold ret. intros [= <- <-].
  exists name, menu, drinks, slogan, description.
  split; [reflexivity|]. rewrite !length_app. simpl. lia.
Qed.

Lemma empty_name_not_empty_menu : empty_name <> empty_menu.
Proof. intros H. vm_compute in H. discriminate H. Qed.

(** The two checks of the handler. *)
Lemma validate_cases res :
  let name := clean_restaurant_name (res !! "restaurant_name") in
  let items := normalize_lines (res !! "menu_items") in
  (name = [] /\ validate res = inl empty_name)
  \/ (name <> [] /\ items = [] /\ validate res = inl empty_menu)
  \/ (name <> [] /\ items <> []
      /\ validate res
         = inr {| restaurant_name := name; menu_items := items;
                  drink_items := normalize_lines (res !! "drink_items");
                  slogan := strip (or_empty (res !! "slogan"));
                  description := strip (or_empty (res !! "description")) |}).
Proof.
  cbv zeta. unfold validate.
  destruct (clean_restaurant_name (res !! "restaurant_name")) as [|c n];
    [left; split; reflexivity|].
  right. cbn [truthy negb].
  destruct (normalize_lines (res !! "menu_items")) as [|i items].
  - left. repeat split; discriminate.
  - right. repeat split; discriminate.
Qed.

(** C1. When the five calls of the chain return text (the chain returns
    the dict [res], five prompts having been sent), the generation fails
    exactly when the cleaned name is empty, with the error of the missing
    name, or the cleaned name is not empty and the normalised menu is
    empty, with the error of the missing menu.  Otherwise it returns the
    result, whose drinks, slogan and description are the normalised
    texts whether they are empty or not. *)
Theorem generate_fails_iff
    (llm : LLM) (cuisine : str) (log log' : list str)
    (res : gmap string str) :
  build_chain llm {["cuisine" := cuisine]} log = (inr res, log') ->
  length log' = length log + 5
  /\ generate llm cuisine log = (validate res, log')
  /\ (validate res = inl empty_name
      <-> clean_restaurant_name (res !! "restaurant_name") = [])
  /\ (validate res = inl empty_menu
      <-> clean_restaurant_name (res !! "restaurant_name") <> []
          /\ normalize_lines (res !! "menu_items") = [])
  /\ ((exists e, validate res = inl e)
      <-> clean_restaurant_name (res !! "restaurant_name") = []
          \/ normalize_lines (res !! "menu_items") = [])
  /\ (forall r, validate res = inr r ->
        r = {| restaurant_name := clean_restaurant_name (res !! "restaurant_name");
               menu_items := normalize_lines (res !! "menu_items");
               drink_items := normalize_lines (res !! "drink_items");
               slogan := strip (or_empty (res !! "slogan"));
               description := strip (or_empty (res !! "description")) |}).
Proof.
  intros Hchain. split.
  { destruct (build_chain_returns _ _ _ _ _ Hchain)
      as (? & ? & ? & ? & ? & _ & Hlen). exact Hlen. }
  split.
  { unfold generate, run_handler, bind. rewrite Hchain.
    unfold lift, ret, raise. destruct (validate res); reflexivity. }
  pose proof empty_name_not_empty_menu as Hne.
  destruct (validate_cases res) as [(Hn & Hv)|[(Hn & Hi & Hv)|(Hn & Hi & Hv)]];
    rewrite Hv; repeat split; try intros [e He]; intros;
    try congruence; try tauto; eauto.
Qed.

Lemma generate_fails_iff_witness :
  build_chain Samples.sparse_llm {["cuisine" := lit "Mexican"]} []
  = (inr Samples.sparse_res,
     snd (build_chain Samples.sparse_llm {["cuisine" := lit "Mexican"]} []))
  /\ generate Samples.sparse_llm (lit "Mexican") []
     = (validate Samples.sparse_res,
        snd (build_chain Samples.sparse_llm {["cuisine" := lit "Mexican"]} []))
  /\ validate Samples.sparse_res
     = inr {| restaurant_name := lit "Casa Verde";
              menu_items := [lit "Tacos"; lit "Elote"];
              drink_items := []; slogan := []; description := [] |}.
Proof.
  assert (Hchain :
    build_chain Samples.sparse_llm {["cuisine" := lit "Mexican"]} []
    = (inr Samples.sparse_res,
       snd (build_chain Samples.sparse_llm {["cuisine" := lit "Mexican"]} [])))
    by (vm_compute; reflexivity).
  split; [exact Hchain|].
  split.
  - exact (proj1 (proj2 (generate_fails_iff _ _ _ _ _ Hchain))).
  - vm_compute. reflexivity.
Defined.

(** The end-to-end scenario: six menu items, six drinks, and a Markdown
    export that begins with the heading of the name. *)
Example casa_verde_scenario :
  exists r,
    outcome (generate Samples.casa_verde_llm (lit "Mexican") []) = Some r
    /\ restaurant_name r = lit "Casa Verde"
    /\ length (menu_items r) = 6 /\ length (drink_items r) = 6
    /\ slogan r = lit "Fresh. Bold. Mexican."
    /\ description r = lit "A lively spot..."
    /\ Samples.starts_with (lit "## Casa Verde")
         (to_export_v2 (restaurant_name r) (menu_items r) (lit "Markdown")
            (slogan r) (description r) (Some (drink_items r))) = true.
Proof. eexists. split; [vm_compute; reflexivity|]. repeat split. Qed.

(** A blank menu fails the generation whatever the other texts are. *)
Example blank_menu_fails :
  fst (generate (Samples.mock_llm (lit "Casa Verde") (lit "   ")
                   (lit "Horchata") (lit "Fresh.") (lit "A lively spot..."))
         (lit "Mexican") [])
  = inl empty_menu.
Proof. vm_compute. reflexivity. Qed.

End ChainFacts.

(* ===================================================================== *)
(** ** More about [normalize_lines]                                       *)
(* ===================================================================== *)

Module NormalizeMore.
Import PyStr Re App Props PyStrFacts ReFacts NormalizeFacts.

Lemma substring_refl s : substring s s.
Proof. exists [], []. rewrite app_nil_r. reflexivity. Qed.

Lemma substring_trans a b c : substring a b -> substring b c -> substring a c.
Proof.
  intros (p1 & q1 & ->) (p2 & q2 & ->). exists (p2 ++ p1), (q1 ++ q2).
  rewrite <- !app_assoc. reflexivity.
Qed.

Lemma substring_suffix y pre s : substring y s -> substring y (pre ++ s).
Proof.
  intros (p & q & ->). exists (pre ++ p), q. rewrite <- !app_assoc. reflexivity.
Qed.

Lemma strip_with_substring p s : substring (strip_with p s) s.
Proof.
  destruct (strip_with_spec p s) as (pre & post & H & _). exists pre, post.
  exact H.
Qed.

Lemma LINE_CLEAN_RE_sub_substring s : substring (LINE_CLEAN_RE_sub s) s.
Proof.
  rewrite LINE_CLEAN_RE_sub_scan.
  destruct (strip_marker_spec (dropwhile isspace s)) as (m & Hm & _).
  exists (takewhile isspace s ++ m
          ++ takewhile isspace (strip_marker (dropwhile isspace s))), [].
  rewrite app_nil_r, <- !app_assoc, <- dropwhile_span, <- Hm.
  apply dropwhile_span.
Qed.

Lemma clean_line_substring raw y : clean_line raw = Some y -> substring y raw.
Proof.
  intros H. apply clean_line_Some in H as [-> _].
  eapply substring_trans; [apply strip_with_substring|].
  eapply substring_trans; [apply LINE_CLEAN_RE_sub_substring|].
  apply strip_with_substring.
Qed.

Lemma splitlines_nil s : splitlines s = [] -> s = [].
Proof.
  destruct s as [|c t]; [reflexivity|]. simpl.
  destruct (islinebreak c).
  - destruct t as [|c' t']; [discriminate|].
    destruct ((c =? CR)%N && (c' =? LF)%N); discriminate.
  - destruct (splitlines t); discriminate.
Qed.

Lemma splitlines_pieces_len n : forall s, length s <= n ->
  (forall l ls, splitlines s = l :: ls -> exists post, s = l ++ post)
  /\ Forall (fun l => substring l s) (splitlines s).
Proof.
  induction n as [|n IH]; intros s Hn.
  - destruct s; [|simpl in Hn; lia]. split; [discriminate | constructor].
  - destruct s as [|c t]; [split; [discriminate | constructor]|].
    simpl in Hn. simpl. destruct (islinebreak c) eqn:Ec.
    + destruct t as [|c' t'].
      * split; [intros l ls [= <- <-]; exists [c]; reflexivity|].
        repeat constructor. exists [], [c]. reflexivity.
      * simpl in Hn.
        destruct ((c =? CR)%N && (c' =? LF)%N).
        -- split; [intros l ls [= <- <-]; eexists; reflexivity|].
           constructor; [exists [], (c :: c' :: t'); reflexivity|].
           destruct (IH t' ltac:(lia)) as [_ H].
           eapply Forall_impl; [exact H|]. intros l Hl.
           apply (substring_suffix l [c; c']), Hl.
        -- split; [intros l ls [= <- <-]; eexists; reflexivity|].
           constructor; [exists [], (c :: c' :: t'); reflexivity|].
           destruct (IH (c' :: t') ltac:(simpl; lia)) as [_ H].
           eapply Forall_impl; [exact H|]. intros l Hl.
           apply (substring_suffix l [c]), Hl.
    + destruct (IH t ltac:(lia)) as [Hfirst Hall].
      destruct (splitlines t) as [|l ls] eqn:Et.
      * apply splitlines_nil in Et. subst t.
        split; [intros l ls [= <- <-]; exists []; reflexivity|].
        repeat constructor. apply substring_refl.
      * destruct (Hfirst l ls eq_refl) as [post Hpost].
        split; [intros l' ls' [= <- <-]; exists post; rewrite Hpost at 1;
                reflexivity|].
        constructor.
        -- exists [], post. rewrite Hpost at 1. reflexivity.
        -- inversion Hall; subst. eapply Forall_impl; [eassumption|].
           intros l' Hl'. apply (substring_suffix l' [c]), Hl'.
Qed.

(** Every line returned by [splitlines] is a piece of the text. *)
Lemma splitlines_substring s : Forall (fun l => substring l s) (splitlines s).
Proof. apply (splitlines_pieces_len (length s) s). lia. Qed.

(** The entries of the result are normalised entries. *)
Lemma normalized_entries text : Forall normalized_entry (normalize_lines text).
Proof.
  destruct text as [t|]; [|constructor].
  apply Forall_forall. intros y Hy.
  apply elem_of_normalize_lines in Hy as (raw & Hraw & Hy).
  pose proof (proj1 (Forall_forall _ _) (splitlines_no_break t) _ Hraw) as Hnb.
  pose proof (clean_line_none_in _ _ _ Hnb Hy) as Hyb.
  apply clean_line_Some in Hy as [Hy Hne].
  destruct (strip_with_spec isspace (LINE_CLEAN_RE_sub (strip raw)))
    as (_ & _ & _ & _ & _ & Hs & He).
  fold (strip (LINE_CLEAN_RE_sub (strip raw))) in Hs, He.
  rewrite <- Hy in Hs, He. repeat split; assumption.
Qed.

(** X1. Every entry returned by [normalize_lines] is not empty, has no
    white space at either end and holds no line boundary. *)
Theorem normalize_lines_entries_trimmed (text : option str) :
  Forall (fun y => y <> [] /\ not_starting isspace y /\ not_ending isspace y
                   /\ none_in islinebreak y)
         (normalize_lines text).
Proof. exact (normalized_entries text). Qed.

(** X2. Every entry returned by [normalize_lines] occurs in the text as
    a contiguous piece: nothing is rewritten or invented. *)
Theorem normalize_lines_entries_from_text (t : str) :
  Forall (fun y => exists pre post, t = pre ++ y ++ post)
         (normalize_lines (Some t)).
Proof.
  apply Forall_forall. intros y Hy.
  apply elem_of_normalize_lines in Hy as (raw & Hraw & Hy).
  pose proof (proj1 (Forall_forall _ _) (splitlines_substring t) _ Hraw) as Hr.
  apply (substring_trans y raw t); [apply clean_line_substring, Hy | exact Hr].
Qed.

(** *** Texts that grow *)

Lemma splitlines_app_LF_len n : forall a b, length a <= n ->
  splitlines (a ++ LF :: b) = splitlines (a ++ [LF]) ++ splitlines b.
Proof.
  induction n as [|n IH]; intros a b Hn.
  - destruct a; [|simpl in Hn; lia]. destruct b; reflexivity.
  - destruct a as [|c a']; [destruct b; reflexivity|].
    simpl in Hn. cbn [app]. cbn [splitlines].
    destruct (islinebreak c) eqn:Ec.
    + destruct a' as [|c' a'']; cbn [app].
      * destruct ((c =? CR)%N && (LF =? LF)%N); [reflexivity|].
        destruct b; reflexivity.
      * simpl in Hn. destruct ((c =? CR)%N && (c' =? LF)%N).
        -- rewrite (IH a'' b) by lia. reflexivity.
        -- change (c' :: a'' ++ LF :: b) with ((c' :: a'') ++ LF :: b).
           rewrite (IH (c' :: a'') b) by (simpl; lia). reflexivity.
    + rewrite (IH a' b) by lia.
      destruct (splitlines (a' ++ [LF])) as [|l ls] eqn:E; [|reflexivity].
      apply splitlines_nil in E. destruct a'; discriminate E.
Qed.

(** The lines of a text that goes on after a newline: the lines up to
    the newline, then the lines of what follows. *)
Lemma splitlines_app_LF a b :
  splitlines (a ++ LF :: b) = splitlines (a ++ [LF]) ++ splitlines b.
Proof. apply (splitlines_app_LF_len (length a)). lia. Qed.

Lemma fromkeys_fold_extends l : forall acc,
  exists more, foldl fromkeys_step acc l = acc ++ more.
Proof.
  induction l as [|k l IH]; intros acc; simpl.
  - exists []. rewrite app_nil_r. reflexivity.
  - unfold fromkeys_step at 2. case_bool_decide.
    + apply IH.
    + destruct (IH (acc ++ [k])) as [more ->]. exists (k :: more).
      rewrite <- app_assoc. reflexivity.
Qed.

(** X3. When a text that ends with a newline is continued, the entries
    already returned stay where they are: the result for the longer text
    starts with the result for the shorter one. *)
Theorem normalize_lines_continued (a b : str) :
  exists more,
    normalize_lines (Some (a ++ [LF] ++ b))
    = normalize_lines (Some (a ++ [LF])) ++ more.
Proof.
  rewrite !normalize_lines_Some. cbn [app].
  rewrite splitlines_app_LF, omap_app.
  unfold fromkeys. rewrite foldl_app.
  destruct (fromkeys_fold_extends
              (omap clean_line (splitlines b))
              (foldl fromkeys_step [] (omap clean_line (splitlines (a ++ [LF])))))
    as [more ->].
  rewrite take_app. eexists. reflexivity.
Qed.

(** *** What is dropped *)

(** X4. A line is left out of the result for three reasons only: it is
    empty once cleaned, it is a copy of a line that is kept, or six
    entries are kept already. *)
Theorem normalize_lines_drops_only_duplicates (t raw : str) :
  raw ∈ splitlines t ->
  strip (LINE_CLEAN_RE_sub (strip raw)) <> [] ->
  strip (LINE_CLEAN_RE_sub (strip raw)) ∈ normalize_lines (Some t)
  \/ length (normalize_lines (Some t)) = 6.
Proof.
  intros Hraw Hne. rewrite normalize_lines_Some.
  set (d := fromkeys (omap clean_line (splitlines t))).
  assert (Hd : strip (LINE_CLEAN_RE_sub (strip raw)) ∈ d).
  { apply fromkeys_elem, list_elem_of_omap. exists raw. split; [exact Hraw|].
    unfold clean_line. apply truthy_true in Hne. rewrite Hne. reflexivity. }
  destruct (le_lt_dec (length d) MAX_MENU_ITEMS) as [Hle|Hgt].
  - left. rewrite take_ge by exact Hle. exact Hd.
  - right. rewrite length_take. unfold MAX_MENU_ITEMS in *. lia.
Qed.

Lemma normalize_lines_drops_only_duplicates_witness :
  lit "2. Tom Yum" ∈ splitlines (lit "- Pad Thai" ++ [LF] ++ lit "2. Tom Yum")
  /\ (strip (LINE_CLEAN_RE_sub (strip (lit "2. Tom Yum")))
        ∈ normalize_lines (Some (lit "- Pad Thai" ++ [LF] ++ lit "2. Tom Yum"))
      \/ length (normalize_lines
                   (Some (lit "- Pad Thai" ++ [LF] ++ lit "2. Tom Yum"))) = 6).
Proof.
  assert (H : lit "2. Tom Yum"
              ∈ splitlines (lit "- Pad Thai" ++ [LF] ++ lit "2. Tom Yum"))
    by (vm_compute; right; left).
  split; [exact H|].
  apply normalize_lines_drops_only_duplicates; [exact H|].
  vm_compute. discriminate.
Defined.

(** *** Blank texts *)

Lemma all_in_substring p y s : substring y s -> all_in p s -> all_in p y.
Proof.
  intros (pre & post & ->) H. unfold all_in in *.
  apply Forall_app in H as [_ H]. apply Forall_app in H as [H _]. exact H.
Qed.

Lemma strip_with_all_in p s : all_in p s -> strip_with p s = [].
Proof.
  intros H. unfold strip_with, lstrip_with, rstrip_with.
  rewrite <- (app_nil_r s), (dropwhile_all p s [] H). reflexivity.
Qed.

(** A text of white space only gives no entry. *)
Lemma normalize_lines_blank t : all_in isspace t -> normalize_lines (Some t) = [].
Proof.
  intros Ht. rewrite normalize_lines_Some.
  assert (H : omap clean_line (splitlines t) = []).
  { pose proof (splitlines_substring t) as Hsub.
    induction Hsub as [|l ls Hl _ IH]; [reflexivity|].
    cbn. unfold clean_line at 1. unfold strip at 2.
    rewrite (strip_with_all_in isspace l (all_in_substring _ _ _ Hl Ht)).
    rewrite LINE_CLEAN_RE_sub_nil, strip_nil. cbn. exact IH. }
  rewrite H. reflexivity.
Qed.

End NormalizeMore.

(* ===================================================================== *)
(** ** The display list read back                                         *)
(* ===================================================================== *)

Module DisplayMore.
Import PyStr Re App Props PyStrFacts ReFacts NormalizeFacts NormalizeMore.

(** *** The digits of [str(n)] *)

Lemma digits_of_uint_ascii u : Forall (fun c => c ∈ ascii_digits) (digits_of_uint u).
Proof.
  induction u; simpl; constructor; try assumption;
    unfold ascii_digits; set_solver.
Qed.

Lemma ascii_digit_classes c :
  c ∈ ascii_digits ->
  isdecimal c = true /\ isspace c = false /\ islinebreak c = false
  /\ bullet_glyph c = false.
Proof.
  intros H. unfold ascii_digits in H.
  repeat (apply elem_of_cons in H as [->|H]; [repeat split; reflexivity|]).
  apply elem_of_nil in H. contradiction.
Qed.

Lemma str_of_nat_digits n :
  exists d ds, str_of_nat n = d :: ds /\ Forall (fun c => c ∈ ascii_digits) (d :: ds).
Proof.
  unfold str_of_nat. pose proof (digits_of_uint_ascii (Nat.to_uint n)) as H.
  assert (Hn : Nat.to_uint n <> Decimal.Nil).
  { rewrite <- (DecimalNat.Unsigned.of_to n) at 1.
    rewrite DecimalNat.Unsigned.to_of. apply DecimalFacts.unorm_nonnil. }
  destruct (Nat.to_uint n); try congruence; simpl in *; eauto.
Qed.

(** *** Lines that start with the prefix of a display style *)

Lemma dropwhile_run p a c b :
  all_in p a -> p c = false -> dropwhile p (a ++ c :: b) = c :: b.
Proof.
  intros Ha Hc. rewrite dropwhile_all by exact Ha. simpl. rewrite Hc.
  reflexivity.
Qed.

Lemma style_prefix_facts mk y :
  style_prefix mk -> not_starting isspace y ->
  LINE_CLEAN_RE_sub (mk ++ y) = y
  /\ not_starting isspace (mk ++ y)
  /\ mk <> [] /\ none_in islinebreak mk.
Proof.
  intros [-> | [n ->]] Hy.
  - rewrite LINE_CLEAN_RE_sub_scan.
    change (lit "- " ++ y) with (0x2D%N :: 0x20%N :: y).
    repeat split; try discriminate; [|repeat constructor].
    change (dropwhile isspace (0x2D%N :: 0x20%N :: y))
      with (0x2D%N :: 0x20%N :: y).
    change (strip_marker (0x2D%N :: 0x20%N :: y)) with (0x20%N :: y).
    change (dropwhile isspace (0x20%N :: y)) with (dropwhile isspace y).
    apply dropwhile_fixed, Hy.
  - destruct (str_of_nat_digits n) as (d & ds & -> & Hds).
    inversion Hds as [|? ? Hd Hds']; subst.
    destruct (ascii_digit_classes d Hd) as (Hdec & Hsp & Hlb & Hbu).
    assert (Hall : all_in isdecimal ds).
    { eapply Forall_impl; [exact Hds'|]. intros c Hc.
      apply (ascii_digit_classes c Hc). }
    repeat split; try discriminate.
    + rewrite LINE_CLEAN_RE_sub_scan. cbn [app dropwhile]. rewrite Hsp.
      cbn [strip_marker]. rewrite Hbu, Hdec.
      rewrite <- app_assoc.
      change (lit ". " ++ y) with (0x2E%N :: 0x20%N :: y).
      rewrite dropwhile_run by (exact Hall || reflexivity).
      change (dropwhile numeric_suffix (0x2E%N :: 0x20%N :: y))
        with (0x20%N :: y).
      change (dropwhile isspace (0x20%N :: y)) with (dropwhile isspace y).
      apply dropwhile_fixed, Hy.
    + exact Hsp.
    + apply Forall_app. split; [|repeat constructor].
      eapply Forall_impl; [exact Hds|]. intros c Hc.
      apply (ascii_digit_classes c Hc).
Qed.

Lemma not_ending_app p a y :
  y <> [] -> not_ending p y -> not_ending p (a ++ y).
Proof.
  intros Hne Hy. unfold not_ending in *. rewrite reverse_app.
  destruct (reverse y) as [|c r] eqn:E; [|exact Hy].
  apply (f_equal reverse) in E. rewrite reverse_involutive in E.
  contradiction.
Qed.

(** A line made of a style prefix and a normalised entry is cleaned
    back to the entry. *)
Lemma clean_prefixed_line mk y :
  style_prefix mk -> normalized_entry y ->
  clean_line (mk ++ y) = Some y
  /\ mk ++ y <> [] /\ none_in islinebreak (mk ++ y).
Proof.
  intros Hmk (Hne & Hs & He & Hnb).
  destruct (style_prefix_facts mk y Hmk Hs) as (Hsub & Hstart & Hmk0 & Hmkb).
  split; [|split].
  - unfold clean_line.
    assert (E1 : strip (mk ++ y) = mk ++ y)
      by (apply strip_with_fixed; [exact Hstart | apply not_ending_app; assumption]).
    assert (E2 : strip y = y) by (apply strip_with_fixed; assumption).
    rewrite E1, Hsub, E2. apply truthy_true in Hne. rewrite Hne. reflexivity.
  - destruct mk; [congruence | discriminate].
  - apply Forall_app. split; assumption.
Qed.

Lemma bulleted_prefixed items : prefixed_lines (bulleted items) items.
Proof.
  induction items as [|x items IH]; constructor; [|exact IH].
  exists (lit "- "). split; [left; reflexivity | reflexivity].
Qed.

Lemma numbered_prefixed items : forall i, prefixed_lines (numbered_from i items) items.
Proof.
  induction items as [|x items IH]; intros i; constructor; [|apply IH].
  exists (str_of_nat (i + 1) ++ lit ". "). split; [right; eauto|].
  rewrite <- app_assoc. reflexivity.
Qed.

Lemma prefixed_lines_read_back lines items :
  prefixed_lines lines items -> Forall normalized_entry items ->
  splitlines (join NL lines) = lines /\ omap clean_line lines = items.
Proof.
  intros Hp Hitems.
  assert (H : Forall (fun l => l <> [] /\ none_in islinebreak l) lines
              /\ omap clean_line lines = items).
  { induction Hp as [|line y lines items (mk & Hmk & ->) Hp IH];
      [split; [constructor | reflexivity]|].
    inversion Hitems; subst.
    destruct (clean_prefixed_line mk y Hmk) as (Hc & Hne & Hnb); [assumption|].
    destruct IH as [IH1 IH2]; [assumption|]. split.
    - constructor; [split; assumption | exact IH1].
    - cbn. rewrite Hc. cbn. rewrite IH2. reflexivity. }
  destruct H as [Hl Ho]. split; [|exact Ho]. apply splitlines_join, Hl.
Qed.

Lemma normalize_prefixed_lines text lines :
  prefixed_lines lines (normalize_lines text) ->
  normalize_lines (Some (join NL lines)) = normalize_lines text.
Proof.
  intros Hp.
  destruct (prefixed_lines_read_back _ _ Hp (normalized_entries text))
    as [Hs Ho].
  rewrite normalize_lines_Some, Hs, Ho.
  rewrite (fromkeys_fixed _ (normalize_lines_NoDup _)).
  apply take_ge, normalize_lines_length.
Qed.

(** X5. The display of a normalised list in the style [Bullets] or
    [Numbered] is read back by [normalize_lines] as the list itself:
    the prefix of each line is the one marker that is stripped. *)
Theorem normalize_lines_reads_display_back (text : option str) :
  normalize_lines
    (Some (to_display_list (normalize_lines text) (lit "Bullets")))
  = normalize_lines text
  /\ normalize_lines
       (Some (to_display_list (normalize_lines text) (lit "Numbered")))
     = normalize_lines text.
Proof.
  split.
  - apply (normalize_prefixed_lines text (bulleted (normalize_lines text))).
    apply bulleted_prefixed.
  - apply (normalize_prefixed_lines text (numbered_from 0 (normalize_lines text))).
    apply numbered_prefixed.
Qed.

(** X6. In every style, known or not, the display of a normalised list
    has exactly one line per entry: the lines of the display are the
    prefixed entries, or the entries themselves. *)
Theorem to_display_list_one_line_per_entry (text : option str) (style : str) :
  splitlines (to_display_list (normalize_lines text) style)
  = (if str_eqb style (lit "Bullets") then bulleted (normalize_lines text)
     else if str_eqb style (lit "Numbered")
          then numbered_from 0 (normalize_lines text)
          else normalize_lines text)
  /\ length (splitlines (to_display_list (normalize_lines text) style))
     = length (normalize_lines text).
Proof.
  pose proof (normalized_entries text) as Hn.
  unfold to_display_list.
  destruct (str_eqb style (lit "Bullets")); [|destruct (str_eqb style (lit "Numbered"))].
  - destruct (prefixed_lines_read_back _ _ (bulleted_prefixed _) Hn) as [-> _].
    split; [reflexivity|]. unfold bulleted. apply length_map.
  - destruct (prefixed_lines_read_back _ _ (numbered_prefixed _ 0) Hn) as [H _].
    rewrite H. split; [reflexivity|].
    apply (Forall2_length _ _ _ (numbered_prefixed (normalize_lines text) 0)).
  - assert (H : splitlines (join NL (normalize_lines text)) = normalize_lines text).
    { apply splitlines_join. eapply Forall_impl; [exact Hn|].
      intros y (? & _ & _ & ?). split; assumption. }
    rewrite H. split; reflexivity.
Qed.

End DisplayMore.

(* ===================================================================== *)
(** ** More about [to_export_v2]                                          *)
(* ===================================================================== *)

Module ExportMore.
Import PyStr Re App Props PyStrFacts NormalizeFacts NormalizeMore DisplayMore
  ExportFacts.

Lemma join_elem sep (L : list str) y :
  y ∈ L -> exists u v, join sep L = u ++ y ++ v.
Proof.
  induction L as [|x L IH]; intros Hy; [apply elem_of_nil in Hy; contradiction|].
  destruct L as [|z L].
  - apply list_elem_of_singleton in Hy. subst. exists [], [].
    simpl. rewrite app_nil_r. reflexivity.
  - rewrite join_cons2. apply elem_of_cons in Hy as [-> | Hy].
    + exists [], (sep ++ join sep (z :: L)). reflexivity.
    + destruct (IH Hy) as (u & v & ->). exists (x ++ sep ++ u), v.
      rewrite <- !app_assoc. reflexivity.
Qed.

Lemma rstrip_with_keep p x e b :
  p e = false -> rstrip_with p (x ++ e :: b) = x ++ e :: rstrip_with p b.
Proof.
  intros He. unfold rstrip_with.
  rewrite reverse_app, reverse_cons, <- app_assoc. cbn [app].
  rewrite dropwhile_app_stop by exact He.
  rewrite reverse_app, reverse_cons, reverse_involutive, <- app_assoc.
  reflexivity.
Qed.

(** The trim of a text keeps its start, from the first code point that
    is not white space on, when a later code point is not white space
    either. *)
Lemma strip_with_keeps_head p x a e b :
  p e = false ->
  exists rest, strip_with p (x ++ a ++ e :: b) = dropwhile p x ++ rest.
Proof.
  intros He. destruct (dropwhile p x) as [|c x'] eqn:Ex.
  - eexists. reflexivity.
  - pose proof (dropwhile_not_starting p x) as Hc. rewrite Ex in Hc.
    cbn in Hc. unfold strip_with, lstrip_with.
    pose proof (takewhile_all p x) as Hw.
    pose proof (dropwhile_span p x) as Hx. rewrite Ex in Hx.
    set (w := takewhile p x) in *. clearbody w. subst x. clear Ex.
    rewrite <- app_assoc, dropwhile_all by exact Hw.
    cbn [app dropwhile]. rewrite Hc.
    replace (c :: x' ++ a ++ e :: b) with ((c :: x' ++ a) ++ e :: b)
      by (cbn [app]; rewrite <- app_assoc; reflexivity).
    rewrite rstrip_with_keep by exact He.
    exists (a ++ e :: rstrip_with p b). cbn [app]. rewrite <- app_assoc.
    reflexivity.
Qed.

Lemma strip_join_keeps_head sep x (L : list str) ypre e ypost :
  isspace e = false -> (ypre ++ e :: ypost) ∈ L ->
  exists rest, strip (join sep (x :: L)) = dropwhile isspace x ++ rest.
Proof.
  intros He Hy. destruct L as [|z L]; [apply elem_of_nil in Hy; contradiction|].
  rewrite join_cons2. destruct (join_elem sep _ _ Hy) as (u & v & ->).
  replace (x ++ sep ++ u ++ (ypre ++ e :: ypost) ++ v)
    with (x ++ (sep ++ u ++ ypre) ++ e :: (ypost ++ v))
    by (rewrite <- !app_assoc; reflexivity).
  apply strip_with_keeps_head, He.
Qed.

(** The start of the export, from the part [LF :: e :: ypost] that
    follows the first parts. *)
Ltac keep_head e ypost :=
  match goal with
  | |- exists rest, strip (join ?sep (?x :: ?L)) = _ =>
      destruct (strip_join_keeps_head sep x L [LF] e ypost) as [rest H];
      [ reflexivity
      | apply list_elem_of_In; cbn [In];
        repeat first [left; reflexivity | right]
      | exists rest; rewrite H; reflexivity ]
  end.

(** X7. The export starts with the name: in the Markdown format with
    the heading made of two hashes, a space and the name as it is; in
    the text format with the name without the white space in front of
    it.  The final trim never removes it. *)
Theorem to_export_v2_starts_with_name
    (name : str) (items : list str) (fmt slogan description : str)
    (drinks : option (list str)) :
  exists rest,
    to_export_v2 name items fmt slogan description drinks
    = (if str_eqb fmt (lit "Markdown") then lit "## " ++ name
       else dropwhile isspace name) ++ rest.
Proof.
  unfold to_export_v2.
  destruct (str_eqb fmt (lit "Markdown")).
  - destruct (truthy slogan), (truthy description),
      (truthy match drinks with Some (d :: ds) => d :: ds | _ => [] end);
      cbv zeta; cbn [app]; keep_head 0x23%N (lit "## Menu Items").
  - destruct (truthy slogan), (truthy description); cbv zeta;
      repeat rewrite <- app_assoc; cbn [app];
      keep_head 0x4D%N (lit "enu Items").
Qed.

(** *** The export with drinks *)

Lemma join_app_r sep (A B : list str) :
  B <> [] ->
  join sep (A ++ B) = concat (map (fun p => p ++ sep) A) ++ join sep B.
Proof.
  intros HB. induction A as [|x A IH]; [reflexivity|].
  cbn [app map concat]. destruct (A ++ B) as [|z l] eqn:E.
  - apply app_eq_nil in E as [_ E]. contradiction.
  - rewrite join_cons2, IH, <- !app_assoc. reflexivity.
Qed.

Lemma join_not_ending p sep (L : list str) :
  L <> [] -> Forall (fun d => d <> [] /\ not_ending p d) L ->
  join sep L <> [] /\ not_ending p (join sep L).
Proof.
  intros HL H. induction H as [|x L [Hx Hxe] HF IH]; [contradiction|].
  destruct L as [|z L]; [split; assumption|].
  destruct IH as [IH1 IH2]; [discriminate|].
  rewrite join_cons2. split.
  - intros E. apply app_eq_nil in E as [E _]. contradiction.
  - rewrite app_assoc. apply not_ending_app; assumption.
Qed.

Lemma bulleted_not_ending p (L : list str) :
  Forall (fun d => d <> [] /\ not_ending p d) L ->
  Forall (fun d => d <> [] /\ not_ending p d) (bulleted L).
Proof.
  induction 1 as [|x L [Hx Hxe] _ IH]; constructor; [|exact IH].
  split; [discriminate | apply not_ending_app; assumption].
Qed.

(** As [strip_with_keep], for a text that ends with the string [z]. *)
Lemma strip_with_keep_end p a c b z :
  p c = false -> z <> [] -> not_ending p z ->
  strip_with p (a ++ c :: b ++ z) = dropwhile p a ++ c :: b ++ z.
Proof.
  intros Hc Hz He. unfold not_ending in He.
  destruct (reverse z) as [|e r] eqn:E.
  - apply (f_equal reverse) in E. rewrite reverse_involutive in E.
    contradiction.
  - apply (f_equal reverse) in E.
    rewrite reverse_involutive, reverse_cons in E. subst z.
    rewrite !(app_assoc b). apply strip_with_keep; assumption.
Qed.

Lemma plain_export_tail_drinks (P items drinks : list str) :
  drinks <> [] ->
  Forall (fun d => d <> [] /\ not_ending isspace d) drinks ->
  strip (join NL ((((P ++ [LF :: lit "Menu Items"]) ++ items)
                   ++ [LF :: lit "Drinks"]) ++ drinks))
  = (dropwhile isspace (concat (map (fun p => p ++ NL) P) ++ [LF])
     ++ lit "Menu Items" ++ NL ++ concat (map (fun p => p ++ NL) items))
    ++ [LF] ++ lit "Drinks" ++ [LF] ++ join NL drinks.
Proof.
  intros Hne Hd.
  destruct (join_not_ending isspace NL drinks Hne Hd) as [HJ HJe].
  rewrite join_app_r by exact Hne.
  rewrite concat_map_snoc, map_app, concat_app, concat_map_snoc.
  set (cP := concat (map (fun p => p ++ NL) P)).
  set (cI := concat (map (fun p => p ++ NL) items)).
  set (J := join NL drinks) in *.
  unfold strip.
  transitivity (strip_with isspace
    ((cP ++ [LF]) ++ 0x4D%N
       :: (lit "enu Items" ++ NL ++ cI ++ [LF] ++ lit "Drinks" ++ NL) ++ J)).
  - f_equal. list_norm.
  - rewrite strip_with_keep_end by (reflexivity || assumption). list_norm.
Qed.

Lemma markdown_export_tail_drinks (P : list str) (h : str) (P' : list str)
    (B X : str) :
  P = (0x23%N :: h) :: P' -> X <> [] -> not_ending isspace X ->
  strip (join (NL ++ NL) ((((P ++ [LF :: lit "### Menu Items"]) ++ [B])
                           ++ [LF :: lit "### Drinks"]) ++ [X]))
  = (concat (map (fun p => p ++ NL ++ NL) P) ++ LF :: lit "### Menu Items"
     ++ NL ++ NL ++ B ++ NL ++ NL)
    ++ [LF] ++ lit "### Drinks" ++ [LF; LF] ++ X.
Proof.
  intros -> HX HXe. rewrite join_snoc, !concat_map_snoc.
  set (cP := concat (map (fun p => p ++ NL ++ NL) P')).
  unfold strip.
  transitivity (strip_with isspace
    ([] ++ 0x23%N
       :: (h ++ NL ++ NL ++ cP ++ LF :: lit "### Menu Items" ++ NL ++ NL ++ B
           ++ NL ++ NL ++ LF :: lit "### Drinks" ++ NL ++ NL) ++ X)).
  - f_equal. cbn [map concat]. fold cP. list_norm.
  - rewrite strip_with_keep_end by (reflexivity || assumption).
    cbn [map concat]. fold cP. list_norm.
Qed.

(** X8. With a list of drinks that is not empty and whose entries are
    not empty and do not end with white space (as the entries of
    [normalize_lines] are), the export ends with the Drinks section and
    all the drinks, one per line: as they are in the text format, each
    behind a hyphen in the Markdown format. *)
Theorem to_export_v2_lists_drinks
    (name : str) (items : list str) (fmt slogan description : str)
    (drinks : list str) :
  drinks <> [] ->
  Forall (fun d => d <> [] /\ not_ending isspace d) drinks ->
  exists pre,
    to_export_v2 name items fmt slogan description (Some drinks)
    = pre ++ (if str_eqb fmt (lit "Markdown")
              then [LF] ++ lit "### Drinks" ++ [LF; LF]
                   ++ join NL (bulleted drinks)
              else [LF] ++ lit "Drinks" ++ [LF] ++ join NL drinks).
Proof.
  intros Hne Hd. unfold to_export_v2.
  destruct drinks as [|d ds]; [contradiction|]. cbn [truthy].
  destruct (join_not_ending isspace NL (bulleted (d :: ds)))
    as [HX HXe]; [discriminate | apply bulleted_not_ending, Hd|].
  destruct (str_eqb fmt (lit "Markdown")).
  - destruct (truthy slogan), (truthy description); cbv zeta;
      eexists;
      (erewrite markdown_export_tail_drinks;
       [reflexivity | reflexivity | exact HX | exact HXe]).
  - destruct (truthy slogan), (truthy description); cbv zeta;
      rewrite plain_export_tail_drinks by assumption; eexists; reflexivity.
Qed.

Lemma to_export_v2_lists_drinks_witness :
  exists pre,
    to_export_v2 (lit "Casa Verde") [lit "Tacos"] (lit "Text") [] []
                 (Some [lit "Horchata"; lit "Agua Fresca"])
    = pre ++ [LF] ++ lit "Drinks" ++ [LF]
      ++ join NL [lit "Horchata"; lit "Agua Fresca"].
Proof.
  apply (to_export_v2_lists_drinks (lit "Casa Verde") [lit "Tacos"]
           (lit "Text") [] [] [lit "Horchata"; lit "Agua Fresca"]).
  - discriminate.
  - repeat constructor; discriminate.
Defined.

End ExportMore.

(* ===================================================================== *)
(** ** More about the chain                                               *)
(* ===================================================================== *)

Module ChainMore.
Import PyStr Re App Chain Props PyStrFacts NormalizeFacts NormalizeMore
  ChainFacts.

Lemma first_missing_present vars (d : gmap string str) :
  (forall k, k ∈ vars -> is_Some (d !! k)) -> first_missing vars d = None.
Proof.
  induction vars as [|k vars IH]; intros H; simpl; [reflexivity|].
  destruct (H k) as [v ->]; [left|]. apply IH. intros k' Hk'. apply H.
  right. exact Hk'.
Qed.

Lemma render_present t (d : gmap string str) :
  (forall k, Field k ∈ t -> is_Some (d !! k)) -> exists p, render t d = inr p.
Proof.
  induction t as [|[s|k] t IH]; intros H; simpl.
  - eauto.
  - destruct IH as [p ->]; [|eauto]. intros k Hk. apply H. right. exact Hk.
  - destruct (H k) as [v ->]; [left|].
    destruct IH as [p ->]; [|eauto]. intros k' Hk'. apply H. right. exact Hk'.
Qed.

(** A template about the cuisine and the name can be formatted as soon
    as the dict holds both. *)
Lemma format_prompt_present t (d : gmap string str) :
  about_cuisine_and_name t ->
  is_Some (d !! "cuisine") -> is_Some (d !! "restaurant_name") ->
  exists p, format_prompt t d = inr p.
Proof.
  intros [Hv Hf] Hc Hn. unfold format_prompt.
  rewrite first_missing_present.
  - apply render_present. intros k Hk. destruct (Hf k Hk) as [-> | ->]; assumption.
  - intros k Hk. destruct (Hv k Hk) as [-> | ->]; assumption.
Qed.

(** The run of one of the four sub-chains that follow the name, on a
    dict that holds the cuisine [c] and the name [n]: the prompt is the
    template formatted with these two, whatever else the dict holds. *)
Lemma prompt_chain_run_named llm t (d : gmap string str) c n log :
  about_cuisine_and_name t ->
  d !! "cuisine" = Some c -> d !! "restaurant_name" = Some n ->
  exists p,
    format_prompt t (<["restaurant_name" := n]> {["cuisine" := c]}) = inr p
    /\ pipe (pipe (prompt_runnable t) (llm_runnable llm)) parser d log
       = (llm log p, log ++ [p]).
Proof.
  intros Ht Hc Hn.
  assert (Hagree : format_prompt t d
                   = format_prompt t (<["restaurant_name" := n]> {["cuisine" := c]})).
  { apply format_prompt_agree; [exact Ht | |].
    - rewrite Hc, lookup_insert_ne by discriminate.
      rewrite lookup_singleton_eq. reflexivity.
    - rewrite Hn, lookup_insert_eq. reflexivity. }
  destruct (format_prompt_present t d Ht) as [p Hp]; [rewrite Hc | rewrite Hn |];
    eauto.
  exists p. split; [rewrite <- Hagree; exact Hp|].
  rewrite prompt_chain_run, Hp. reflexivity.
Qed.

Lemma build_menu_run llm (d : gmap string str) c n log :
  d !! "cuisine" = Some c -> d !! "restaurant_name" = Some n ->
  exists p,
    format_prompt menu_prompt (<["restaurant_name" := n]> {["cuisine" := c]})
    = inr p
    /\ build_menu llm d log = (llm log p, log ++ [p]).
Proof.
  intros Hc Hn. unfold build_menu, menu_chain, get_or_empty. rewrite Hc, Hn.
  cbn [default]. apply prompt_chain_run_named.
  - apply step2_prompts_about_cuisine_and_name.
  - apply lookup_insert_eq.
  - rewrite lookup_insert_ne by discriminate. apply lookup_insert_eq.
Qed.

Lemma build_drinks_run llm (d : gmap string str) c n log :
  d !! "cuisine" = Some c -> d !! "restaurant_name" = Some n ->
  exists p,
    format_prompt drinks_prompt (<["restaurant_name" := n]> {["cuisine" := c]})
    = inr p
    /\ build_drinks llm d log = (llm log p, log ++ [p]).
Proof.
  intros Hc Hn. unfold build_drinks, drinks_chain, get_or_empty. rewrite Hc, Hn.
  cbn [default]. apply prompt_chain_run_named.
  - apply step2_prompts_about_cuisine_and_name.
  - apply lookup_insert_eq.
  - rewrite lookup_insert_ne by discriminate. apply lookup_insert_eq.
Qed.

Lemma lookup_after_name (d0 : gmap string str) c n :
  d0 !! "cuisine" = Some c ->
  (<["restaurant_name" := n]> d0) !! "cuisine" = Some c
  /\ (<["restaurant_name" := n]> d0) !! "restaurant_name" = Some n.
Proof.
  intros H. rewrite lookup_insert_ne by discriminate.
  rewrite lookup_insert_eq. tauto.
Qed.

Lemma lookup_after_step k v (d : gmap string str) c n :
  k ∈ out_keys ->
  d !! "cuisine" = Some c /\ d !! "restaurant_name" = Some n ->
  (<[k := v]> d) !! "cuisine" = Some c
  /\ (<[k := v]> d) !! "restaurant_name" = Some n.
Proof.
  intros Hk [Hc Hn]. unfold out_keys in Hk.
  rewrite !lookup_insert_ne; [tauto | |]; intros ->; in_list Hk.
Qed.

(** The whole run of the chain, call by call: the name prompt is sent
    first; after a name [n] is returned the four other prompts, each
    formatted with the cuisine and [n], are sent in the order menu,
    drinks, slogan, description; the first failure ends the run. *)
Lemma build_chain_run llm cuisine log :
  exists p1,
    format_prompt name_prompt {["cuisine" := cuisine]} = inr p1
    /\ match llm log p1 with
       | inl e =>
           build_chain llm {["cuisine" := cuisine]} log = (inl e, log ++ [p1])
       | inr n =>
           let d1 : gmap string str :=
             <["restaurant_name" := n]> {["cuisine" := cuisine]} in
           exists p2 p3 p4 p5,
             format_prompt menu_prompt d1 = inr p2
             /\ format_prompt drinks_prompt d1 = inr p3
             /\ format_prompt slogan_prompt d1 = inr p4
             /\ format_prompt description_prompt d1 = inr p5
             /\ match llm (log ++ [p1]) p2 with
                | inl e =>
                    build_chain llm {["cuisine" := cuisine]} log
                    = (inl e, (log ++ [p1]) ++ [p2])
                | inr m =>
                    match llm ((log ++ [p1]) ++ [p2]) p3 with
                    | inl e =>
                        build_chain llm {["cuisine" := cuisine]} log
                        = (inl e, ((log ++ [p1]) ++ [p2]) ++ [p3])
                    | inr dr =>
                        match llm (((log ++ [p1]) ++ [p2]) ++ [p3]) p4 with
                        | inl e =>
                            build_chain llm {["cuisine" := cuisine]} log
                            = (inl e, (((log ++ [p1]) ++ [p2]) ++ [p3]) ++ [p4])
                        | inr sl =>
                            match llm ((((log ++ [p1]) ++ [p2]) ++ [p3]) ++ [p4]) p5 with
                            | inl e =>
                                build_chain llm {["cuisine" := cuisine]} log
                                = (inl e,
                                   ((((log ++ [p1]) ++ [p2]) ++ [p3]) ++ [p4])
                                   ++ [p5])
                            | inr ds =>
                                build_chain llm {["cuisine" := cuisine]} log
                                = (inr (<["description" := ds]>
                                          (<["slogan" := sl]>
                                             (<["drink_items" := dr]>
                                                (<["menu_items" := m]> d1)))),
                                   ((((log ++ [p1]) ++ [p2]) ++ [p3]) ++ [p4])
                                   ++ [p5])
                            end
                        end
                    end
                end
       end.
Proof.
  destruct step2_prompts_about_cuisine_and_name as (Hm & Hd & Hs & Hx).
  assert (Hp1 : exists p1,
             format_prompt name_prompt {["cuisine" := cuisine]} = inr p1)
    by (eexists; apply name_prompt_formats).
  destruct Hp1 as [p1 Hp1]. exists p1. split; [exact Hp1|].
  rewrite build_chain_in_source_order, build_chain_in_order_run.
  unfold step2. cbn [assign_all fst snd]. unfold bind.
  rewrite assign_run. unfold name_chain.
  rewrite prompt_chain_run, Hp1.
  destruct (llm log p1) as [e|n]; [reflexivity|]. cbv zeta.
  set (d1 := <["restaurant_name" := n]> ({["cuisine" := cuisine]} : gmap string str)).
  assert (H1 : d1 !! "cuisine" = Some cuisine /\ d1 !! "restaurant_name" = Some n)
    by (apply lookup_after_name, lookup_singleton_eq).
  destruct (format_prompt_present menu_prompt d1 Hm) as [p2 Hp2];
    [rewrite (proj1 H1); eauto | rewrite (proj2 H1); eauto|].
  destruct (format_prompt_present drinks_prompt d1 Hd) as [p3 Hp3];
    [rewrite (proj1 H1); eauto | rewrite (proj2 H1); eauto|].
  destruct (format_prompt_present slogan_prompt d1 Hs) as [p4 Hp4];
    [rewrite (proj1 H1); eauto | rewrite (proj2 H1); eauto|].
  destruct (format_prompt_present description_prompt d1 Hx) as [p5 Hp5];
    [rewrite (proj1 H1); eauto | rewrite (proj2 H1); eauto|].
  exists p2, p3, p4, p5. repeat (split; [assumption|]).
  rewrite assign_run.
  destruct (build_menu_run llm d1 cuisine n (log ++ [p1]) (proj1 H1) (proj2 H1))
    as (q & Hq & ->).
  fold d1 in Hq. rewrite Hp2 in Hq. injection Hq as <-.
  destruct (llm (log ++ [p1]) p2) as [e|m]; [reflexivity|].
  set (d2 := <["menu_items" := m]> d1).
  assert (H2 : d2 !! "cuisine" = Some cuisine /\ d2 !! "restaurant_name" = Some n)
    by (apply lookup_after_step; [apply list_elem_of_In; cbn [In out_keys];
         repeat first [left; reflexivity | right] | exact H1]).
  rewrite assign_run.
  destruct (build_drinks_run llm d2 cuisine n ((log ++ [p1]) ++ [p2])
              (proj1 H2) (proj2 H2)) as (q & Hq & ->).
  fold d1 in Hq. rewrite Hp3 in Hq. injection Hq as <-.
  destruct (llm ((log ++ [p1]) ++ [p2]) p3) as [e|dr]; [reflexivity|].
  set (d3 := <["drink_items" := dr]> d2).
  assert (H3 : d3 !! "cuisine" = Some cuisine /\ d3 !! "restaurant_name" = Some n)
    by (apply lookup_after_step; [apply list_elem_of_In; cbn [In out_keys];
         repeat first [left; reflexivity | right] | exact H2]).
  rewrite assign_run. unfold slogan_chain.
  destruct (prompt_chain_run_named llm slogan_prompt d3 cuisine n
              (((log ++ [p1]) ++ [p2]) ++ [p3]) Hs (proj1 H3) (proj2 H3))
    as (q & Hq & ->).
  fold d1 in Hq. rewrite Hp4 in Hq. injection Hq as <-.
  destruct (llm (((log ++ [p1]) ++ [p2]) ++ [p3]) p4) as [e|sl]; [reflexivity|].
  set (d4 := <["slogan" := sl]> d3).
  assert (H4 : d4 !! "cuisine" = Some cuisine /\ d4 !! "restaurant_name" = Some n)
    by (apply lookup_after_step; [apply list_elem_of_In; cbn [In out_keys];
         repeat first [left; reflexivity | right] | exact H3]).
  rewrite assign_run. unfold description_chain.
  destruct (prompt_chain_run_named llm description_prompt d4 cuisine n
              ((((log ++ [p1]) ++ [p2]) ++ [p3]) ++ [p4]) Hx (proj1 H4) (proj2 H4))
    as (q & Hq & ->).
  fold d1 in Hq. rewrite Hp5 in Hq. injection Hq as <-.
  destruct (llm ((((log ++ [p1]) ++ [p2]) ++ [p3]) ++ [p4]) p5) as [e|ds];
    reflexivity.
Qed.

(** X9. When the chain returns a dict, exactly five prompts were sent,
    in the order name, menu, drinks, slogan, description; the four
    later prompts are their templates formatted with the cuisine and the
    name exactly as the model returned it, and the dict holds the five
    answers beside the cuisine. *)
Theorem build_chain_success_prompts
    (llm : LLM) (cuisine : str) (log log' : list str)
    (res : gmap string str) :
  build_chain llm {["cuisine" := cuisine]} log = (inr res, log') ->
  exists n m dr sl ds p1 p2 p3 p4 p5,
    log' = log ++ [p1; p2; p3; p4; p5]
    /\ res = <["description" := ds]>
               (<["slogan" := sl]>
                  (<["drink_items" := dr]>
                     (<["menu_items" := m]>
                        (<["restaurant_name" := n]>
                           {["cuisine" := cuisine]}))))
    /\ (format_prompt name_prompt {["cuisine" := cuisine]} = inr p1
        /\ llm log p1 = inr n)
    /\ (format_prompt menu_prompt
          (<["restaurant_name" := n]> {["cuisine" := cuisine]}) = inr p2
        /\ llm (log ++ [p1]) p2 = inr m)
    /\ (format_prompt drinks_prompt
          (<["restaurant_name" := n]> {["cuisine" := cuisine]}) = inr p3
        /\ llm (log ++ [p1; p2]) p3 = inr dr)
    /\ (format_prompt slogan_prompt
          (<["restaurant_name" := n]> {["cuisine" := cuisine]}) = inr p4
        /\ llm (log ++ [p1; p2; p3]) p4 = inr sl)
    /\ (format_prompt description_prompt
          (<["restaurant_name" := n]> {["cuisine" := cuisine]}) = inr p5
        /\ llm (log ++ [p1; p2; p3; p4]) p5 = inr ds).
Proof.
  intros Hrun.
  destruct (build_chain_run llm cuisine log) as (p1 & Hp1 & H).
  destruct (llm log p1) as [e|n] eqn:E1; [congruence|]. cbv zeta in H.
  destruct H as (p2 & p3 & p4 & p5 & Hp2 & Hp3 & Hp4 & Hp5 & H).
  destruct (llm (log ++ [p1]) p2) as [e|m] eqn:E2; [congruence|].
  destruct (llm ((log ++ [p1]) ++ [p2]) p3) as [e|dr] eqn:E3; [congruence|].
  destruct (llm (((log ++ [p1]) ++ [p2]) ++ [p3]) p4) as [e|sl] eqn:E4;
    [congruence|].
  destruct (llm ((((log ++ [p1]) ++ [p2]) ++ [p3]) ++ [p4]) p5) as [e|ds] eqn:E5;
    [congruence|].
  rewrite Hrun in H. injection H as -> ->.
  repeat (rewrite <- app_assoc in E3; cbn [app] in E3).
  repeat (rewrite <- app_assoc in E4; cbn [app] in E4).
  repeat (rewrite <- app_assoc in E5; cbn [app] in E5).
  exists n, m, dr, sl, ds, p1, p2, p3, p4, p5.
  repeat (rewrite <- app_assoc; cbn [app]).
  repeat split; try reflexivity; assumption.
Qed.

(** The chain run for the model [Samples.sparse_llm] and the cuisine
    Mexican. *)
Lemma sparse_chain_run :
  build_chain Samples.sparse_llm {["cuisine" := lit "Mexican"]} []
  = (inr Samples.sparse_res,
     snd (build_chain Samples.sparse_llm {["cuisine" := lit "Mexican"]} [])).
Proof. vm_compute. reflexivity. Qed.

Lemma build_chain_success_prompts_witness :
  exists n m dr sl ds p1 p2 p3 p4 p5,
    snd (build_chain Samples.sparse_llm {["cuisine" := lit "Mexican"]} [])
    = [] ++ [p1; p2; p3; p4; p5]
    /\ Samples.sparse_res
       = <["description" := ds]>
           (<["slogan" := sl]>
              (<["drink_items" := dr]>
                 (<["menu_items" := m]>
                    (<["restaurant_name" := n]>
                       {["cuisine" := lit "Mexican"]}))))
    /\ (format_prompt name_prompt {["cuisine" := lit "Mexican"]} = inr p1
        /\ Samples.sparse_llm [] p1 = inr n)
    /\ (format_prompt menu_prompt
          (<["restaurant_name" := n]> {["cuisine" := lit "Mexican"]}) = inr p2
        /\ Samples.sparse_llm ([] ++ [p1]) p2 = inr m)
    /\ (format_prompt drinks_prompt
          (<["restaurant_name" := n]> {["cuisine" := lit "Mexican"]}) = inr p3
        /\ Samples.sparse_llm ([] ++ [p1; p2]) p3 = inr dr)
    /\ (format_prompt slogan_prompt
          (<["restaurant_name" := n]> {["cuisine" := lit "Mexican"]}) = inr p4
        /\ Samples.sparse_llm ([] ++ [p1; p2; p3]) p4 = inr sl)
    /\ (format_prompt description_prompt
          (<["restaurant_name" := n]> {["cuisine" := lit "Mexican"]}) = inr p5
        /\ Samples.sparse_llm ([] ++ [p1; p2; p3; p4]) p5 = inr ds).
Proof.
  exact (build_chain_success_prompts Samples.sparse_llm (lit "Mexican") [] _
           Samples.sparse_res sparse_chain_run).
Defined.

(** X10. When the chain fails, the failure is the one raised by the
    model on the last prompt sent: every prompt sent before it was
    answered with text, so nothing is sent after a failed call; at most
    four prompts precede it, and formatting a prompt never fails. *)
Theorem build_chain_failure_is_last_call
    (llm : LLM) (cuisine : str) (log log' : list str) (e : exn) :
  build_chain llm {["cuisine" := cuisine]} log = (inl e, log') ->
  exists sent p,
    log' = log ++ sent ++ [p]
    /\ length sent <= 4
    /\ all_answered llm log sent
    /\ llm (log ++ sent) p = inl e.
Proof.
  intros Hrun.
  destruct (build_chain_run llm cuisine log) as (p1 & Hp1 & H).
  destruct (llm log p1) as [e1|n] eqn:E1.
  { rewrite Hrun in H. injection H as -> ->. exists [], p1.
    rewrite app_nil_r. cbn.
    split; [reflexivity | split; [lia | split; [exact I | exact E1]]]. }
  cbv zeta in H. destruct H as (p2 & p3 & p4 & p5 & _ & _ & _ & _ & H).
  destruct (llm (log ++ [p1]) p2) as [e2|m] eqn:E2.
  { rewrite Hrun in H. injection H as -> ->. exists [p1], p2.
    split; [rewrite app_assoc; reflexivity|]. split; [simpl; lia|].
    split; [cbn; eauto | exact E2]. }
  destruct (llm ((log ++ [p1]) ++ [p2]) p3) as [e3|dr] eqn:E3.
  { rewrite Hrun in H. injection H as -> ->. exists [p1; p2], p3.
    split; [repeat (rewrite <- app_assoc; cbn [app]); reflexivity|].
    split; [simpl; lia|]. split; [cbn; eauto|].
    repeat (rewrite <- app_assoc in E3; cbn [app] in E3). exact E3. }
  destruct (llm (((log ++ [p1]) ++ [p2]) ++ [p3]) p4) as [e4|sl] eqn:E4.
  { rewrite Hrun in H. injection H as -> ->. exists [p1; p2; p3], p4.
    split; [repeat (rewrite <- app_assoc; cbn [app]); reflexivity|].
    split; [simpl; lia|]. split; [cbn; eauto 10|].
    repeat (rewrite <- app_assoc in E4; cbn [app] in E4). exact E4. }
  destruct (llm ((((log ++ [p1]) ++ [p2]) ++ [p3]) ++ [p4]) p5) as [e5|ds] eqn:E5.
  { rewrite Hrun in H. injection H as -> ->. exists [p1; p2; p3; p4], p5.
    split; [repeat (rewrite <- app_assoc; cbn [app]); reflexivity|].
    split; [simpl; lia|]. split; [cbn; eauto 10|].
    repeat (rewrite <- app_assoc in E5; cbn [app] in E5). exact E5. }
  congruence.
Qed.

Lemma build_chain_failure_is_last_call_witness :
  exists sent p,
    snd (build_chain Samples.drinks_down_llm {["cuisine" := lit "Thai"]} [])
    = [] ++ sent ++ [p]
    /\ length sent <= 4
    /\ all_answered Samples.drinks_down_llm [] sent
    /\ Samples.drinks_down_llm ([] ++ sent) p
       = inl (UpstreamError (lit "timeout")).
Proof.
  apply (build_chain_failure_is_last_call Samples.drinks_down_llm
           (lit "Thai") []).
  vm_compute. reflexivity.
Defined.

(** With [Samples.drinks_down_llm] the run ends on the third prompt. *)
Example drinks_failure_sends_three_prompts :
  length (snd (build_chain Samples.drinks_down_llm
                 {["cuisine" := lit "Thai"]} [])) = 3
  /\ fst (generate Samples.drinks_down_llm (lit "Thai") [])
     = inl (UpstreamError (lit "timeout")).
Proof. split; vm_compute; reflexivity. Qed.

(** *** Results that pass the checks *)

Lemma strip_trimmed s : not_starting isspace (strip s) /\ not_ending isspace (strip s).
Proof.
  destruct (strip_with_spec isspace s) as (_ & _ & _ & _ & _ & Hs & He).
  split; assumption.
Qed.

Lemma clean_restaurant_name_trimmed name :
  not_starting isspace (clean_restaurant_name name)
  /\ not_ending isspace (clean_restaurant_name name).
Proof.
  destruct name as [[|c n]|]; try (split; exact I).
  apply strip_trimmed.
Qed.

(** X11. Every result that passes the two checks of the handler has a
    name that is not empty and has no white space at either end, between
    one and six distinct menu items, at most six distinct drinks, and a
    slogan and a description without white space at either end. *)
Theorem validate_result_invariants (res : gmap string str) (r : GenerationResult) :
  validate res = inr r ->
  (restaurant_name r <> [] /\ not_starting isspace (restaurant_name r)
   /\ not_ending isspace (restaurant_name r))
  /\ (1 <= length (menu_items r) <= 6 /\ NoDup (menu_items r))
  /\ (length (drink_items r) <= 6 /\ NoDup (drink_items r))
  /\ (not_starting isspace (slogan r) /\ not_ending isspace (slogan r))
  /\ (not_starting isspace (description r)
      /\ not_ending isspace (description r)).
Proof.
  intros Hv.
  destruct (validate_cases res) as [(_ & E)|[(_ & _ & E)|(Hn & Hi & E)]];
    rewrite E in Hv; try discriminate Hv.
  injection Hv as <-. cbn [restaurant_name menu_items drink_items slogan
    description].
  pose proof (clean_restaurant_name_trimmed (res !! "restaurant_name")) as [? ?].
  pose proof (normalize_lines_length (res !! "menu_items")) as Hl.
  pose proof (normalize_lines_length (res !! "drink_items")) as Hl'.
  unfold MAX_MENU_ITEMS in *.
  destruct (normalize_lines (res !! "menu_items")) as [|i its] eqn:Ei;
    [contradiction|].
  repeat split; try assumption; try apply strip_trimmed;
    try (rewrite <- Ei; apply normalize_lines_NoDup);
    try apply normalize_lines_NoDup; simpl in *; lia.
Qed.

Lemma validate_result_invariants_witness :
  (lit "Casa Verde" <> [] /\ not_starting isspace (lit "Casa Verde")
   /\ not_ending isspace (lit "Casa Verde"))
  /\ (1 <= length [lit "Tacos"; lit "Elote"] <= 6
      /\ NoDup [lit "Tacos"; lit "Elote"])
  /\ (length (@nil (list N)) <= 6 /\ NoDup (@nil (list N)))
  /\ (not_starting isspace [] /\ not_ending isspace [])
  /\ (not_starting isspace [] /\ not_ending isspace []).
Proof.
  apply (validate_result_invariants Samples.sparse_res
           {| restaurant_name := lit "Casa Verde";
              menu_items := [lit "Tacos"; lit "Elote"];
              drink_items := []; slogan := []; description := [] |}).
  vm_compute. reflexivity.
Defined.

(** X12. A dict whose name cleans to a non-empty string and whose menu
    text is absent or made of white space only fails the second check,
    whatever the drinks, the slogan and the description are. *)
Theorem validate_blank_menu (res : gmap string str) :
  clean_restaurant_name (res !! "restaurant_name") <> [] ->
  (forall m, res !! "menu_items" = Some m -> all_in isspace m) ->
  validate res = inl empty_menu.
Proof.
  intros Hn Hm.
  assert (Hi : normalize_lines (res !! "menu_items") = []).
  { destruct (res !! "menu_items") as [m|]; [|reflexivity].
    apply normalize_lines_blank, Hm. reflexivity. }
  destruct (validate_cases res) as [(E & _)|[(_ & _ & E)|(_ & Hi' & _)]];
    [contradiction | exact E | contradiction].
Qed.

Lemma validate_blank_menu_witness :
  validate (<["menu_items" := lit "  " ++ [LF] ++ lit " "]>
              (<["restaurant_name" := lit "Casa Verde"]>
                 {["cuisine" := lit "Mexican"]}))
  = inl empty_menu.
Proof.
  apply validate_blank_menu.
  - vm_compute. discriminate.
  - intros m Hm. rewrite lookup_insert_eq in Hm. injection Hm as <-.
    repeat constructor.
Defined.

End ChainMore.

(* ===================================================================== *)
(** ** The API key, the download and the panel                            *)
(* ===================================================================== *)

Module PanelMore.
Import PyStr Re App Chain Panel Props PyStrFacts NormalizeFacts NormalizeMore
  ChainFacts ChainMore.

Lemma strip_nil_iff s : strip s = [] <-> all_in isspace s.
Proof.
  split; [|apply strip_with_all_in].
  intros E. destruct (strip_with_spec isspace s) as (pre & post & Hs & Hpre & Hpost & _).
  fold (strip s) in Hs. rewrite E in Hs. rewrite Hs.
  apply Forall_app. split; assumption.
Qed.

Lemma OPENAI_API_KEY_None env :
  OPENAI_API_KEY env = None
  <-> env = None \/ exists e, env = Some e /\ all_in isspace e.
Proof.
  unfold OPENAI_API_KEY, or_none.
  destruct (truthy (strip (or_empty env))) eqn:E.
  - apply truthy_true in E. split; [discriminate|].
    intros [-> | (e & -> & He)]; exfalso; apply E; [reflexivity|].
    destruct e as [|c e]; [reflexivity|]. cbn [or_empty].
    apply strip_nil_iff, He.
  - apply truthy_false in E. split; [intros _|reflexivity].
    destruct env as [e|]; [right | left; reflexivity].
    exists e. split; [reflexivity|].
    destruct e as [|c e]; [constructor|]. apply strip_nil_iff, E.
Qed.

Lemma OPENAI_API_KEY_Some env k :
  OPENAI_API_KEY env = Some k ->
  k <> [] /\ not_starting isspace k /\ not_ending isspace k.
Proof.
  unfold OPENAI_API_KEY, or_none.
  destruct (truthy (strip (or_empty env))) eqn:E; [|discriminate].
  intros [= <-]. apply truthy_true in E.
  split; [exact E | apply strip_trimmed].
Qed.

Lemma effective_key_Some key_input env k :
  effective_key key_input (OPENAI_API_KEY env) = Some k ->
  k <> [] /\ not_starting isspace k /\ not_ending isspace k.
Proof.
  unfold effective_key. destruct (truthy (strip key_input)) eqn:E.
  - apply truthy_true in E. intros [= <-].
    split; [exact E | apply strip_trimmed].
  - apply OPENAI_API_KEY_Some.
Qed.

(** X13. The key used for the model is never blank: it is not empty and
    has no white space at either end.  A key typed in the sidebar wins
    over the environment as soon as it is not blank; there is no key
    exactly when the typed key is blank and the environment variable is
    unset or blank. *)
Theorem effective_key_resolution (key_input : str) (env : option str) :
  (forall k, effective_key key_input (OPENAI_API_KEY env) = Some k ->
     k <> [] /\ not_starting isspace k /\ not_ending isspace k)
  /\ (strip key_input <> [] ->
      effective_key key_input (OPENAI_API_KEY env) = Some (strip key_input))
  /\ (effective_key key_input (OPENAI_API_KEY env) = None
      <-> all_in isspace key_input
          /\ (env = None \/ exists e, env = Some e /\ all_in isspace e)).
Proof.
  unfold effective_key.
  destruct (truthy (strip key_input)) eqn:E.
  - apply truthy_true in E. split; [|split].
    + intros k [= <-]. split; [exact E | apply strip_trimmed].
    + reflexivity.
    + split; [discriminate|]. intros [H _]. apply strip_nil_iff in H.
      contradiction.
  - apply truthy_false in E. split; [|split].
    + apply OPENAI_API_KEY_Some.
    + intros H. contradiction.
    + rewrite OPENAI_API_KEY_None, <- strip_nil_iff. tauto.
Qed.

(** *** The panel *)

(** The chain sends at most five prompts and never rewrites the log. *)
Lemma build_chain_log llm cuisine log :
  exists sent,
    snd (build_chain llm {["cuisine" := cuisine]} log) = log ++ sent
    /\ length sent <= 5.
Proof.
  destruct (build_chain_run llm cuisine log) as (p1 & _ & H).
  destruct (llm log p1) as [e1|n].
  { rewrite H. exists [p1]. split; [reflexivity | simpl; lia]. }
  cbv zeta in H. destruct H as (p2 & p3 & p4 & p5 & _ & _ & _ & _ & H).
  destruct (llm (log ++ [p1]) p2).
  { rewrite H. exists [p1; p2]. cbn [snd].
    repeat (rewrite <- app_assoc; cbn [app]). split; [reflexivity | simpl; lia]. }
  destruct (llm ((log ++ [p1]) ++ [p2]) p3).
  { rewrite H. exists [p1; p2; p3]. cbn [snd].
    repeat (rewrite <- app_assoc; cbn [app]). split; [reflexivity | simpl; lia]. }
  destruct (llm (((log ++ [p1]) ++ [p2]) ++ [p3]) p4).
  { rewrite H. exists [p1; p2; p3; p4]. cbn [snd].
    repeat (rewrite <- app_assoc; cbn [app]). split; [reflexivity | simpl; lia]. }
  destruct (llm ((((log ++ [p1]) ++ [p2]) ++ [p3]) ++ [p4]) p5);
    rewrite H; exists [p1; p2; p3; p4; p5]; cbn [snd];
    repeat (rewrite <- app_assoc; cbn [app]); (split; [reflexivity | simpl; lia]).
Qed.

Lemma generate_log llm cuisine log :
  snd (generate llm cuisine log)
  = snd (build_chain llm {["cuisine" := cuisine]} log).
Proof.
  unfold generate, run_handler, bind.
  destruct (build_chain llm _ log) as [[e|res] l]; [reflexivity|].
  unfold lift, ret, raise. destruct (validate res); reflexivity.
Qed.

(** X14. The panel never lets an exception out: it always ends on a
    screen.  It sends at most five prompts; none before the button is
    pressed, and none when there is no key, in which case the missing
    key is reported. *)
Theorem main_panel_never_raises
    {T : Type} (client : T -> str -> LLM) (run_btn : bool)
    (key_input : str) (env : option str) (temperature : T)
    (cuisine bullet_style export_fmt : str) (log : list str) :
  exists screen sent,
    main_panel client run_btn key_input env temperature cuisine bullet_style
      export_fmt log
    = (inr screen, log ++ sent)
    /\ length sent <= 5
    /\ (run_btn = false -> screen = InfoShown /\ sent = [])
    /\ (effective_key key_input (OPENAI_API_KEY env) = None ->
        sent = [] /\ (run_btn = true -> screen = MissingKeyShown)).
Proof.
  unfold main_panel. destruct run_btn.
  - destruct (effective_key key_input (OPENAI_API_KEY env)) as [key|] eqn:Ek.
    + destruct (effective_key_Some _ _ _ Ek) as (Hne & _).
      apply truthy_true in Hne. unfold get_llm. rewrite Hne. cbn [negb lift].
      unfold bind, ret.
      pose proof (generate_log (client temperature key) cuisine log) as Hlog.
      destruct (build_chain_log (client temperature key) cuisine log)
        as (sent & Hsent & Hlen).
      rewrite <- Hlog in Hsent.
      destruct (generate (client temperature key) cuisine log) as [[e|r] l];
        cbn [snd] in Hsent; subst l; eexists; exists sent;
        (split; [reflexivity|]); (split; [exact Hlen|]);
        split; discriminate.
    + exists MissingKeyShown, []. rewrite app_nil_r.
      split; [reflexivity|]. split; [simpl; lia|].
      split; [discriminate | split; reflexivity].
  - exists InfoShown, []. rewrite app_nil_r.
    split; [reflexivity|]. split; [simpl; lia|].
    split; [split; reflexivity | split; [reflexivity | discriminate]].
Qed.

(** *** The download *)

Lemma replace_char_no_old old new s :
  new <> old -> Forall (fun c => c <> old) (replace_char old new s).
Proof.
  intros Hne. unfold replace_char. apply Forall_map, Forall_forall.
  intros c _. cbn. destruct (N.eqb_spec c old); assumption.
Qed.

(** X15. The name of the downloaded file holds no space, is as long as
    the name of the restaurant plus the extension, and its extension
    agrees with the MIME type: [.md] with [text/markdown] for the
    Markdown format, [.txt] with [text/plain] for any other. *)
Theorem download_file_name_spec (rest_name export_fmt : str) :
  Forall (fun c => c <> 0x20%N) (download_file_name rest_name export_fmt)
  /\ ((export_fmt = lit "Markdown"
       /\ download_file_name rest_name export_fmt
          = replace_char 0x20 0x5F rest_name ++ lit ".md"
       /\ download_mime export_fmt = lit "text/markdown"
       /\ length (download_file_name rest_name export_fmt)
          = length rest_name + 3)
      \/ (export_fmt <> lit "Markdown"
          /\ download_file_name rest_name export_fmt
             = replace_char 0x20 0x5F rest_name ++ lit ".txt"
          /\ download_mime export_fmt = lit "text/plain"
          /\ length (download_file_name rest_name export_fmt)
             = length rest_name + 4)).
Proof.
  unfold download_file_name, download_mime, str_eqb.
  case_bool_decide as E.
  - split.
    + apply Forall_app. split; [apply replace_char_no_old; discriminate|].
      repeat constructor; discriminate.
    + left. repeat split; try assumption.
      rewrite length_app. unfold replace_char. rewrite length_map.
      reflexivity.
  - split.
    + apply Forall_app. split; [apply replace_char_no_old; discriminate|].
      repeat constructor; discriminate.
    + right. repeat split; try assumption.
      rewrite length_app. unfold replace_char. rewrite length_map.
      reflexivity.
Qed.

End PanelMore.
